(** * videoeditor: the block timeline of [main.py]

    A shallow embedding of the segmentation and navigation core of the
    video block editor ([src/main.py]): [AudioBlock], [BlockManager],
    [SilenceDetector.detect_blocks] and the handlers of [VideoPlayer]
    that read or write the block list.

    Conventions of the embedding.

    - Times are Python floats in the source.  Here a time is a rational
      ([Q]), and [<], [<=] are the order of the values.  Two rationals
      that denote the same number are related by [==] ([Qeq]).
    - [skip_silence] and the block navigation test float differences
      against thresholds and truncate float products to milliseconds.
      There the arithmetic is that of binary64, round to nearest even
      ([Float]): [300 / 1000.0 - 0.2] is below 0.1 and
      [int(1.001 * 1000)] is 1000.  The quotient of [position_changed],
      the duration of a cut and the pixel of a time are computed
      exactly.
    - Positions of the media player are integer milliseconds ([Z]).
    - An exception that leaves a function is a [Raised] result; a handler
      that catches it and returns [False] returns [false].
    - [json.dump] and [json.load] belong to the library: a file holds the
      value that [json.load] returns for it.  Likewise a line of the
      analyzer is what the string operations of [detect_blocks] find in
      it.
    - The GUI (dialogs, painting, buttons) is not modelled; what a dialog
      returns is an argument of the handler. *)

From Stdlib Require Import QArith Qround Lqa ZArith Lia Sorted.
From stdpp Require Import base option list strings gmap.

Local Open Scope Q_scope.

(** ** Python values and operators used by the source *)

Module Py.

(** [a < b] on numbers. *)
Definition ltb (a b : Q) : bool :=
  match a ?= b with Lt => true | _ => false end.

(** [a <= b] on numbers. *)
Definition leb (a b : Q) : bool := Qle_bool a b.

(** [max(a, b)]: the first argument is kept unless the second is
    strictly greater. *)
Definition max (a b : Q) : Q := if ltb a b then b else a.

(** [int(x)]: truncation towards zero. *)
Definition int (x : Q) : Z :=
  if Qle_bool 0 x then Qfloor x else Qceiling x.

(** Truth value of [video_path]: [None] and the empty string are false. *)
Definition truthy (s : option string) : bool :=
  match s with
  | Some EmptyString => false
  | Some (String _ _) => true
  | None => false
  end.

(** Exceptions the modelled code can raise. *)
Inductive exn := ValueError | IndexError | KeyError | OSError | JSONDecodeError.

Inductive result (A : Type) :=
| Ok (a : A)
| Raised (e : exn).
Arguments Ok {A} a.
Arguments Raised {A} e.

Definition bind {A B} (r : result A) (k : A -> result B) : result B :=
  match r with
  | Ok a => k a
  | Raised e => Raised e
  end.

End Py.

(** ** Float arithmetic

    A Python float is an IEEE 754 binary64 number: a 53-bit significand
    and a unit in the last place between 2^-1074 and 2^971.  Every
    finite float is a rational; [round] takes a rational to the float
    nearest to it, ties to the even significand, and an operation on
    floats is the exact operation followed by [round].  Results beyond
    the largest float (overflow) are outside the model. *)

Module Float.

(** The floor of the binary logarithm of [n / d]. *)
Definition log2_floor (n d : positive) : Z :=
  let e := (Z.log2 (Zpos n) - Z.log2 (Zpos d))%Z in
  let reached :=
    if (0 <=? e)%Z then (Z.shiftl (Zpos d) e <=? Zpos n)%Z
    else (Zpos d <=? Z.shiftl (Zpos n) (- e))%Z in
  if reached then e else (e - 1)%Z.

(** The integer nearest to [num / den], the even one of two that are
    equally near; [num] is not negative and [den] is positive. *)
Definition nearest_even (num den : Z) : Z :=
  let fl := (num / den)%Z in
  match (2 * (num mod den) ?= den)%Z with
  | Lt => fl
  | Gt => (fl + 1)%Z
  | Eq => if Z.even fl then fl else (fl + 1)%Z
  end.

(** The float nearest to [n / d]: a multiple [m * 2^q] of the unit in
    the last place [2^q] of [n / d]. *)
Definition round_pos (n d : positive) : Q :=
  let q := Z.max (log2_floor n d - 52) (-1074) in
  if (0 <=? q)%Z
  then inject_Z (Z.shiftl (nearest_even (Zpos n) (Z.shiftl (Zpos d) q)) q)
  else nearest_even (Z.shiftl (Zpos n) (- q)) (Zpos d) # Z.to_pos (Z.shiftl 1 (- q)).

(** [float(x)]: the float of a decimal literal, of an integer, or of
    the exact result of an operation. *)
Definition round (x : Q) : Q :=
  match Qnum x with
  | Z0 => 0
  | Zpos n => round_pos n (Qden x)
  | Zneg n => - round_pos n (Qden x)
  end.

(** [x + y], [x - y], [x * y] and [x / y] on floats ([y] not zero in
    the last).  The operands are the floats of the times they stand
    for. *)
Definition add (x y : Q) : Q := round (round x + round y).
Definition sub (x y : Q) : Q := round (round x - round y).
Definition mul (x y : Q) : Q := round (round x * round y).
Definition div (x y : Q) : Q := round (round x / round y).

End Float.

Arguments Float.round : simpl never.
Arguments Float.add : simpl never.
Arguments Float.sub : simpl never.
Arguments Float.mul : simpl never.
Arguments Float.div : simpl never.

Notation "'try!' x <- r ; k" := (Py.bind r (fun x => k))
  (at level 10, x name, r at level 100, k at level 200).

(** ** class AudioBlock *)

Record AudioBlock := mkAudioBlock {
  start : Q;
  end_ : Q;
  is_silence : bool;
  include : bool;
  visited : bool
}.

(** [AudioBlock.__init__(start, end, is_silence)]. *)
Definition AudioBlock_init (start end_ : Q) (is_silence : bool) : AudioBlock :=
  {| start := start;
     end_ := end_;
     is_silence := is_silence;
     include := negb is_silence;
     visited := false |}.

(** The dict of [to_dict], as [json.dump] writes it and [json.load] reads
    it back: an entry is [None] when the key is absent.  Entries that are
    present have the type the schema gives them. *)
Record block_dict := mkBlockDict {
  d_start : option Q;
  d_end : option Q;
  d_is_silence : option bool;
  d_include : option bool;
  d_visited : option bool
}.

(** [AudioBlock.to_dict]. *)
Definition to_dict (b : AudioBlock) : block_dict :=
  {| d_start := Some (start b);
     d_end := Some (end_ b);
     d_is_silence := Some (is_silence b);
     d_include := Some (include b);
     d_visited := Some (visited b) |}.

(** [data[key]]: a missing key raises [KeyError]. *)
Definition getitem {A} (entry : option A) : Py.result A :=
  match entry with
  | Some v => Py.Ok v
  | None => Py.Raised Py.KeyError
  end.

(** [AudioBlock.from_dict]: the constructor reads [start], [end] and
    [is_silence]; [include] and [visited] are then overwritten. *)
Definition from_dict (data : block_dict) : Py.result AudioBlock :=
  try! s <- getitem (d_start data);
  try! e <- getitem (d_end data);
  try! sil <- getitem (d_is_silence data);
  let block := AudioBlock_init s e sil in
  try! inc <- getitem (d_include data);
  let block := {| start := start block; end_ := end_ block;
                  is_silence := is_silence block;
                  include := inc; visited := visited block |} in
  try! vis <- getitem (d_visited data);
  Py.Ok {| start := start block; end_ := end_ block;
           is_silence := is_silence block;
           include := include block; visited := vis |}.

(** ** class SilenceDetector *)

Module SilenceDetector.

(** What [float(line.split(marker)[1].split(" ")[0])] finds after a
    marker: a number, text that [float] rejects, or nothing because the
    marker is not followed by [": "]. *)
Inductive token :=
| Number (t : Q)
| NotANumber
| NoField.

(** A line of the analyzer's output.  The test for [silence_start]
    comes first, so a line with both markers is a [StartLine]. *)
Inductive line :=
| StartLine (tok : token)
| EndLine (tok : token)
| OtherLine.

Definition read_token (tok : token) : Py.result Q :=
  match tok with
  | Number t => Py.Ok t
  | NotANumber => Py.Raised Py.ValueError
  | NoField => Py.Raised Py.IndexError
  end.

(** The loop over [output.split('\n')] that fills [silence_starts] and
    [silence_ends]. *)
Fixpoint scan_lines (lines : list line) (silence_starts silence_ends : list Q)
  : Py.result (list Q * list Q) :=
  match lines with
  | [] => Py.Ok (silence_starts, silence_ends)
  | StartLine tok :: rest =>
      try! time <- read_token tok;
      scan_lines rest (silence_starts ++ [time]) silence_ends
  | EndLine tok :: rest =>
      try! time <- read_token tok;
      scan_lines rest silence_starts (silence_ends ++ [time])
  | OtherLine :: rest => scan_lines rest silence_starts silence_ends
  end.

(** [float(duration_result.stdout.strip())]: [None] is output that
    [float] rejects, the empty output included. *)
Definition read_duration (stdout : option Q) : Py.result Q :=
  match stdout with
  | Some d => Py.Ok d
  | None => Py.Raised Py.ValueError
  end.

(** One turn of [for start, end in zip(silence_starts, silence_ends)]
    on the pair [(current_time, blocks)]. *)
Definition block_step (st : Q * list AudioBlock) (iv : Q * Q)
  : Q * list AudioBlock :=
  let '(current_time, blocks) := st in
  let '(start, end_) := iv in
  let blocks :=
    if Py.ltb current_time start
    then blocks ++ [AudioBlock_init current_time start false]
    else blocks in
  let blocks := blocks ++ [AudioBlock_init start end_ true] in
  (end_, blocks).

(** Lines 918-930: the block list from the two marker lists and the
    duration. *)
Definition build_blocks (silence_starts silence_ends : list Q) (duration : Q)
  : list AudioBlock :=
  let '(current_time, blocks) :=
    foldl block_step (0, []) (zip silence_starts silence_ends) in
  if Py.ltb current_time duration
  then blocks ++ [AudioBlock_init current_time duration false]
  else blocks.

(** [detect_blocks], given the analyzer's lines and the probe's output. *)
Definition detect_blocks (output : list line) (duration_stdout : option Q)
  : Py.result (list AudioBlock) :=
  try! markers <- scan_lines output [] [];
  try! duration <- read_duration duration_stdout;
  Py.Ok (build_blocks markers.1 markers.2 duration).

End SilenceDetector.

(** ** Persisted state *)

(** The [state] dict of [save_state] and [load_state].  [video_path] is a
    string or [null]; either key may be absent from a file that was not
    written by [save_state]. *)
Record state_dict := mkStateDict {
  s_video_path : option (option string);
  s_blocks : option (list block_dict)
}.

(** What [json.load] finds in a file: text that is not JSON, or a state. *)
Inductive file :=
| NotJson
| Json (state : state_dict).

(** The files by path, and the paths [open(filepath, 'w')] refuses. *)
Record disk := mkDisk {
  files : gmap string file;
  unwritable : gset string
}.

(** [with open(filepath, 'w') as f: json.dump(state, f)]. *)
Definition write_json (d : disk) (filepath : string) (state : state_dict)
  : Py.result disk :=
  if decide (filepath ∈ unwritable d) then Py.Raised Py.OSError
  else Py.Ok {| files := <[filepath := Json state]> (files d);
                unwritable := unwritable d |}.

(** [with open(filepath, 'r') as f: state = json.load(f)]. *)
Definition read_json (d : disk) (filepath : string) : Py.result state_dict :=
  match files d !! filepath with
  | None => Py.Raised Py.OSError
  | Some NotJson => Py.Raised Py.JSONDecodeError
  | Some (Json state) => Py.Ok state
  end.

(** ** class BlockManager *)

(** [duration] is an attribute that only [load_state] creates. *)
Record BlockManager := mkBlockManager {
  blocks : list AudioBlock;
  video_path : option string;
  duration : option Q
}.

Module BlockManager.

Definition init : BlockManager :=
  {| blocks := []; video_path := None; duration := None |}.

Definition set_video_path (self : BlockManager) (path : string) : BlockManager :=
  {| blocks := []; video_path := Some path; duration := duration self |}.

(** [process_blocks], given what the analyzer and the probe print for
    [self.video_path]. *)
Definition process_blocks (self : BlockManager)
    (output : list SilenceDetector.line) (duration_stdout : option Q)
  : Py.result (bool * BlockManager) :=
  if negb (Py.truthy (video_path self)) then Py.Ok (false, self)
  else
    try! bs <- SilenceDetector.detect_blocks output duration_stdout;
    Py.Ok (true, {| blocks := bs; video_path := video_path self;
                    duration := duration self |}).

(** [[block.to_dict() for block in self.blocks]]. *)
Definition blocks_to_dicts (bs : list AudioBlock) : list block_dict :=
  to_dict <$> bs.

(** [[AudioBlock.from_dict(block_data) for block_data in ...]]: the
    first entry that raises ends the comprehension. *)
Fixpoint blocks_from_dicts (ds : list block_dict) : Py.result (list AudioBlock) :=
  match ds with
  | [] => Py.Ok []
  | data :: rest =>
      try! b <- from_dict data;
      try! bs <- blocks_from_dicts rest;
      Py.Ok (b :: bs)
  end.

(** [save_state]: the flag it returns and the disk afterwards. *)
Definition save_state (self : BlockManager) (filepath : string) (d : disk)
  : bool * disk :=
  match blocks self with
  | [] => (false, d)
  | _ :: _ =>
      let state := {| s_video_path := Some (video_path self);
                      s_blocks := Some (blocks_to_dicts (blocks self)) |} in
      match write_json d filepath state with
      | Py.Ok d' => (true, d')
      | Py.Raised _ => (false, d)
      end
  end.

(** The body of the [try] in [load_state].  The manager is threaded
    through the assignments, so a raise reports the manager as the
    assignments made before it left it. *)
Definition load_state_body (self : BlockManager) (filepath : string) (d : disk)
  : BlockManager * Py.result unit :=
  match read_json d filepath with
  | Py.Raised e => (self, Py.Raised e)
  | Py.Ok state =>
      match getitem (s_video_path state) with
      | Py.Raised e => (self, Py.Raised e)
      | Py.Ok path =>
          let self := {| blocks := blocks self; video_path := path;
                         duration := duration self |} in
          match (try! ds <- getitem (s_blocks state); blocks_from_dicts ds) with
          | Py.Raised e => (self, Py.Raised e)
          | Py.Ok bs =>
              let self := {| blocks := bs; video_path := video_path self;
                             duration := duration self |} in
              let self :=
                match last bs with
                | Some b => {| blocks := blocks self;
                               video_path := video_path self;
                               duration := Some (end_ b) |}
                | None => self
                end in
              (self, Py.Ok tt)
          end
      end
  end.

(** [load_state]: [True] when the body ran to its end, [False] when
    the [except] clause caught a raise. *)
Definition load_state (self : BlockManager) (filepath : string) (d : disk)
  : bool * BlockManager :=
  match load_state_body self filepath d with
  | (self', Py.Ok _) => (true, self')
  | (self', Py.Raised _) => (false, self')
  end.

(** [reset_blocks]. *)
Definition reset_block (block : AudioBlock) : AudioBlock :=
  if negb (is_silence block)
  then {| start := start block; end_ := end_ block;
          is_silence := is_silence block;
          include := true; visited := false |}
  else block.

Definition reset_blocks (self : BlockManager) : BlockManager :=
  {| blocks := reset_block <$> blocks self;
     video_path := video_path self;
     duration := duration self |}.

End BlockManager.

(** ** The media player

    [QMediaPlayer] is an external collaborator.  The model keeps what the
    handlers read back from it, the position in milliseconds and the
    playback state, and gives the four commands the effect Qt documents
    for them. *)

Inductive PlaybackState := StoppedState | PlayingState | PausedState.

#[global] Instance PlaybackState_eq_dec : EqDecision PlaybackState.
Proof. solve_decision. Defined.

Record QMediaPlayer := mkMediaPlayer {
  position : Z;
  playbackState : PlaybackState
}.

Module QMediaPlayer.

Definition setPosition (mp : QMediaPlayer) (ms : Z) : QMediaPlayer :=
  {| position := ms; playbackState := playbackState mp |}.

Definition play (mp : QMediaPlayer) : QMediaPlayer :=
  {| position := position mp; playbackState := PlayingState |}.

Definition pause (mp : QMediaPlayer) : QMediaPlayer :=
  {| position := position mp; playbackState := PausedState |}.

(** [stop] also takes the position back to the beginning. *)
Definition stop (mp : QMediaPlayer) : QMediaPlayer :=
  {| position := 0%Z; playbackState := StoppedState |}.

(** [setSource] loads another medium: stopped, at the beginning. *)
Definition setSource (mp : QMediaPlayer) : QMediaPlayer :=
  {| position := 0%Z; playbackState := StoppedState |}.

End QMediaPlayer.

(** ** class BlockTimeline

    The widget keeps its own reference to the block list, the position in
    seconds and the number of blocks it shows. *)

Record BlockTimeline := mkBlockTimeline {
  timeline_blocks : list AudioBlock;
  timeline_position : Q;
  visible_blocks : nat;
  total_duration : Q
}.

Module BlockTimeline.

(** [__init__]: no blocks, 200 visible blocks. *)
Definition init : BlockTimeline :=
  {| timeline_blocks := []; timeline_position := 0;
     visible_blocks := 200; total_duration := 0 |}.

Definition setBlocks (self : BlockTimeline) (blocks : list AudioBlock)
    (total_duration : Q) : BlockTimeline :=
  {| timeline_blocks := blocks;
     timeline_position := timeline_position self;
     visible_blocks := visible_blocks self;
     total_duration := total_duration |}.

Definition setCurrentPosition (self : BlockTimeline) (position : Q) : BlockTimeline :=
  {| timeline_blocks := timeline_blocks self;
     timeline_position := position;
     visible_blocks := visible_blocks self;
     total_duration := total_duration self |}.

Definition setVisibleBlocks (self : BlockTimeline) (visible : nat) : BlockTimeline :=
  {| timeline_blocks := timeline_blocks self;
     timeline_position := timeline_position self;
     visible_blocks := visible;
     total_duration := total_duration self |}.

End BlockTimeline.

(** ** class VideoPlayer *)

Record VideoPlayer := mkVideoPlayer {
  block_manager : BlockManager;
  current_block_index : nat;
  last_jumped_block_index : nat;
  green_mode : bool;
  media_player : QMediaPlayer
}.

(** One cut of the export: [segment_<seg_index>.mp4] is made by ffmpeg
    with [-ss seg_start -t seg_duration]; the concat list names the cuts
    in the order of the list. *)
Record Segment := mkSegment {
  seg_index : nat;
  seg_start : Q;
  seg_duration : Q
}.

(** How [export_green_blocks] ends when the transcoder does not fail. *)
Inductive export_outcome :=
| ExportNotStarted
| ExportNoBlocksSelected
| Exported (cuts : list Segment).

Module VideoPlayer.

Definition set_blocks (self : VideoPlayer) (bs : list AudioBlock) : VideoPlayer :=
  {| block_manager :=
       {| blocks := bs;
          video_path := video_path (block_manager self);
          duration := duration (block_manager self) |};
     current_block_index := current_block_index self;
     last_jumped_block_index := last_jumped_block_index self;
     green_mode := green_mode self;
     media_player := media_player self |}.

Definition set_current_block_index (self : VideoPlayer) (i : nat) : VideoPlayer :=
  {| block_manager := block_manager self;
     current_block_index := i;
     last_jumped_block_index := last_jumped_block_index self;
     green_mode := green_mode self;
     media_player := media_player self |}.

Definition set_media_player (self : VideoPlayer) (mp : QMediaPlayer) : VideoPlayer :=
  {| block_manager := block_manager self;
     current_block_index := current_block_index self;
     last_jumped_block_index := last_jumped_block_index self;
     green_mode := green_mode self;
     media_player := mp |}.

(** [block.start <= current_position <= block.end]. *)
Definition block_contains (current_position : Q) (block : AudioBlock) : bool :=
  Py.leb (start block) current_position && Py.leb current_position (end_ block).

(** [next((i for i, block in enumerate(blocks) if block.start <=
    current_position <= block.end), 0)], the expression of
    [position_changed] and of [BlockTimeline.paintEvent]. *)
Definition find_block_at (blocks : list AudioBlock) (current_position : Q) : nat :=
  from_option fst 0%nat
    (list_find (fun block => block_contains current_position block = true) blocks).

(** The write of [position_changed] on [current_block]. *)
Definition mark_visited (block : AudioBlock) (green_mode : bool) : AudioBlock :=
  {| start := start block; end_ := end_ block;
     is_silence := is_silence block;
     include := green_mode; visited := true |}.

Definition position_changed (self : VideoPlayer) (position : Z) : VideoPlayer :=
  let current_position := inject_Z position / 1000 in
  let blocks := blocks (block_manager self) in
  match blocks with
  | [] => self
  | _ :: _ =>
      let new_block_index := find_block_at blocks current_position in
      match blocks !! new_block_index with
      | Some current_block =>
          let self :=
            if negb (is_silence current_block)
            then set_blocks self
                   (<[new_block_index := mark_visited current_block (green_mode self)]>
                      blocks)
            else self in
          set_current_block_index self new_block_index
      | None => self
      end
  end.

Definition toggle_mode (self : VideoPlayer) : VideoPlayer :=
  {| block_manager := block_manager self;
     current_block_index := current_block_index self;
     last_jumped_block_index := last_jumped_block_index self;
     green_mode := negb (green_mode self);
     media_player := media_player self |}.

Definition reset_blocks (self : VideoPlayer) : VideoPlayer :=
  match blocks (block_manager self) with
  | [] => self
  | _ :: _ =>
      {| block_manager := BlockManager.reset_blocks (block_manager self);
         current_block_index := current_block_index self;
         last_jumped_block_index := last_jumped_block_index self;
         green_mode := green_mode self;
         media_player := media_player self |}
  end.

Definition play_pause (self : VideoPlayer) : VideoPlayer :=
  if decide (playbackState (media_player self) = PlayingState)
  then set_media_player self (QMediaPlayer.pause (media_player self))
  else set_media_player self (QMediaPlayer.play (media_player self)).

Definition set_position (self : VideoPlayer) (position : Z) : VideoPlayer :=
  set_media_player self (QMediaPlayer.setPosition (media_player self) position).

(** [find_next_non_silence_block(start_index, forward=True)]:
    [for i in range(start_index + 1, len(blocks))]. *)
Definition find_next_non_silence_block_forward
    (blocks : list AudioBlock) (start_index : nat) : option nat :=
  (fun found => (start_index + 1 + found.1)%nat) <$>
    list_find (fun block => is_silence block = false)
              (drop (start_index + 1) blocks).

(** [find_next_non_silence_block(start_index, forward=False)]:
    [for i in range(start_index - 1, -1, -1)], here with [n] the number
    of indices still to visit; [blocks[i]] raises when [i] is past the
    end of the list. *)
Fixpoint find_next_non_silence_block_backward
    (blocks : list AudioBlock) (n : nat) : Py.result (option nat) :=
  match n with
  | O => Py.Ok None
  | S i =>
      match blocks !! i with
      | None => Py.Raised Py.IndexError
      | Some block =>
          if negb (is_silence block) then Py.Ok (Some i)
          else find_next_non_silence_block_backward blocks i
      end
  end.

(** The part [goto_next_block] and [goto_previous_block] share once
    [next_index] is known. *)
Definition goto_block (self : VideoPlayer) (next_index : option nat) : VideoPlayer :=
  match next_index with
  | None => self
  | Some next_index =>
      match blocks (block_manager self) !! next_index with
      | None => self
      | Some block =>
          let was_playing :=
            bool_decide (playbackState (media_player self) = PlayingState) in
          let self := set_current_block_index self next_index in
          let target_position := Py.int (Float.mul (start block) 1000) in
          let self :=
            set_media_player self
              (QMediaPlayer.setPosition (media_player self) target_position) in
          if was_playing
          then set_media_player self (QMediaPlayer.play (media_player self))
          else self
      end
  end.

Definition goto_next_block (self : VideoPlayer) : VideoPlayer :=
  goto_block self
    (find_next_non_silence_block_forward (blocks (block_manager self))
       (current_block_index self)).

(** A raise inside the search leaves the handler before any write. *)
Definition goto_previous_block (self : VideoPlayer) : VideoPlayer :=
  match find_next_non_silence_block_backward (blocks (block_manager self))
          (current_block_index self) with
  | Py.Ok next_index => goto_block self next_index
  | Py.Raised _ => self
  end.

(** The test of the [while] loop of [skip_silence] on [next_block]:
    non-silence and [block_duration >= min_block_duration]. *)
Definition suitable (next_block : AudioBlock) : bool :=
  negb (is_silence next_block)
  && Py.leb (Float.round 0.3) (Float.sub (end_ next_block) (start next_block)).

(** The [while next_block_index < len(blocks)] loop, on the blocks from
    [next_block_index] on: the index at which the loop stops, which is
    [len(blocks)] when no block is suitable. *)
Fixpoint scan_suitable (rest : list AudioBlock) (next_block_index : nat) : nat :=
  match rest with
  | [] => next_block_index
  | next_block :: rest =>
      if suitable next_block then next_block_index
      else scan_suitable rest (S next_block_index)
  end.

(** [should_skip] as lines 818-826 compute it. *)
Definition should_skip (current_block : AudioBlock) : bool :=
  let should_skip := is_silence current_block && negb (include current_block) in
  if negb (is_silence current_block)
  then
    let block_duration := Float.sub (end_ current_block) (start current_block) in
    if Py.ltb block_duration (Float.round 0.2) then true else should_skip
  else should_skip.

(** [skip_silence], the slot of the 100 ms timer. *)
Definition skip_silence (self : VideoPlayer) : VideoPlayer :=
  let blocks := blocks (block_manager self) in
  match blocks with
  | [] => self
  | _ :: _ =>
      let current_position :=
        Float.div (inject_Z (position (media_player self))) 1000 in
      let self :=
        if (length blocks <=? current_block_index self)%nat
        then set_current_block_index self (length blocks - 1)
        else self in
      match blocks !! current_block_index self with
      | None => self
      | Some current_block =>
          if Py.ltb (Float.sub current_position (start current_block))
                    (Float.round 0.1)
          then self
          else if should_skip current_block then
            let next_block_index :=
              scan_suitable (drop (current_block_index self + 1) blocks)
                            (current_block_index self + 1) in
            match blocks !! next_block_index with
            | Some next_block =>
                let target_position := Float.add (start next_block) 0.05 in
                let self :=
                  set_media_player self
                    (QMediaPlayer.setPosition (media_player self)
                       (Py.int (Float.mul target_position 1000))) in
                let self := set_current_block_index self next_block_index in
                let playback_state := playbackState (media_player self) in
                if decide (playback_state <> PlayingState)
                then set_media_player self (QMediaPlayer.play (media_player self))
                else self
            | None =>
                set_media_player self (QMediaPlayer.stop (media_player self))
            end
          else self
      end
  end.

(** The list comprehension of line 481. *)
Definition selected (block : AudioBlock) : bool :=
  negb (is_silence block) && visited block && include block.

Definition included_blocks (blocks : list AudioBlock) : list AudioBlock :=
  filter (fun block => selected block = true) blocks.

(** The body of [for i, block in enumerate(included_blocks)]: the
    values behind [-ss] and [-t], before they are printed with three
    decimals. *)
Definition cut (i : nat) (block : AudioBlock) : Segment :=
  let duration := Py.max 0.1 (end_ block - start block) in
  {| seg_index := i; seg_start := start block; seg_duration := duration |}.

Definition export_segments (blocks : list AudioBlock) : list Segment :=
  imap cut (included_blocks blocks).

(** [export_green_blocks], with the path the save dialog returned. *)
Definition export_green_blocks (self : VideoPlayer) (output_path : string)
  : export_outcome :=
  let bm := block_manager self in
  if negb (Py.truthy (video_path bm)) || bool_decide (blocks bm = [])
  then ExportNotStarted
  else if bool_decide (output_path = EmptyString) then ExportNotStarted
  else
    match included_blocks (blocks bm) with
    | [] => ExportNoBlocksSelected
    | _ :: _ => Exported (export_segments (blocks bm))
    end.

(** The files after [export_green_blocks]: when the export runs, the
    transcoder writes the video to [output_path]; the cuts and their
    list are in a directory of their own, which the handler empties
    before it returns. *)
Definition export_green_blocks_files (self : VideoPlayer) (output_path : string)
    (d : disk) : disk :=
  match export_green_blocks self output_path with
  | Exported _ =>
      if decide (output_path ∈ unwritable d) then d
      else {| files := <[output_path := NotJson]> (files d);
              unwritable := unwritable d |}
  | _ => d
  end.

(** [save_state], with the path the save dialog returned: the files
    afterwards.  The handler writes nothing to the player. *)
Definition save_state (self : VideoPlayer) (filepath : string) (d : disk) : disk :=
  match blocks (block_manager self) with
  | [] => d
  | _ :: _ =>
      if bool_decide (filepath = EmptyString) then d
      else (BlockManager.save_state (block_manager self) filepath d).2
  end.

(** [load_state], with the path the open dialog returned. *)
Definition load_state (self : VideoPlayer) (filepath : string) (d : disk)
  : VideoPlayer :=
  if bool_decide (filepath = EmptyString) then self
  else
    let '(ok, bm) := BlockManager.load_state (block_manager self) filepath d in
    let self :=
      {| block_manager := bm;
         current_block_index := current_block_index self;
         last_jumped_block_index := last_jumped_block_index self;
         green_mode := green_mode self;
         media_player := media_player self |} in
    if ok
    then {| block_manager := bm;
            current_block_index := 0;
            last_jumped_block_index := 0;
            green_mode := green_mode self;
            media_player := QMediaPlayer.setSource (media_player self) |}
    else self.

(** [zoom_in]: [max(1, visible_blocks - 1)] on the timeline widget. *)
Definition zoom_in (timeline : BlockTimeline) : BlockTimeline :=
  BlockTimeline.setVisibleBlocks timeline
    (Nat.max 1 (visible_blocks timeline - 1)).

(** [zoom_out]: [min(len(self.block_manager.blocks), visible_blocks + 1)]. *)
Definition zoom_out (self : VideoPlayer) (timeline : BlockTimeline) : BlockTimeline :=
  BlockTimeline.setVisibleBlocks timeline
    (Nat.min (length (blocks (block_manager self))) (visible_blocks timeline + 1)).

(** [open_file], with the path the dialog returned, the answer to the
    question whether to process the blocks now, and what the analyzer
    and the probe print for the video.  A raise of [process_blocks]
    leaves the handler after the source and the path were set. *)
Definition open_file (self : VideoPlayer) (video_path : string) (reply_yes : bool)
    (output : list SilenceDetector.line) (duration_stdout : option Q)
  : VideoPlayer * Py.result unit :=
  match video_path with
  | EmptyString => (self, Py.Ok tt)
  | String _ _ =>
      let self := set_media_player self (QMediaPlayer.setSource (media_player self)) in
      let self :=
        {| block_manager := BlockManager.set_video_path (block_manager self) video_path;
           current_block_index := current_block_index self;
           last_jumped_block_index := last_jumped_block_index self;
           green_mode := green_mode self;
           media_player := media_player self |} in
      if reply_yes then
        match BlockManager.process_blocks (block_manager self) output duration_stdout with
        | Py.Raised e => (self, Py.Raised e)
        | Py.Ok (true, bm) =>
            ({| block_manager := bm;
                current_block_index := 0;
                last_jumped_block_index := 0;
                green_mode := green_mode self;
                media_player := media_player self |}, Py.Ok tt)
        | Py.Ok (false, bm) =>
            ({| block_manager := bm;
                current_block_index := current_block_index self;
                last_jumped_block_index := last_jumped_block_index self;
                green_mode := green_mode self;
                media_player := media_player self |}, Py.Ok tt)
        end
      else (self, Py.Ok tt)
  end.

End VideoPlayer.

(** ** BlockTimeline.paintEvent *)

(** [QColor(r, g, b, a)]. *)
Inductive QColor := mkQColor (r g b a : Z).

(** One [fillRect(start_x, 0, end_x - start_x, height - 20, color)]. *)
Record Rect := mkRect {
  rect_x : Z;
  rect_width : Z;
  rect_color : QColor
}.

(** How [paintEvent] ends: without painting, with the [IndexError] of
    [visible_blocks[0]] on an empty slice, with the [ZeroDivisionError]
    of a division by [time_range], or with the rectangles of the
    visible blocks and the x of the position marker. *)
Inductive paint_outcome :=
| NotPainted
| PaintIndexError
| PaintZeroDivisionError
| Painted (rects : list Rect) (position_x : Z).

Module Painter.

(** Lines 176-184: the colour of a block. *)
Definition block_color (block : AudioBlock) : QColor :=
  if is_silence block then mkQColor 200 200 200 100
  else if visited block then
    if include block then mkQColor 0 255 0 100
    else mkQColor 255 0 0 100
  else mkQColor 150 150 150 100.

(** Lines 158-163: [start_index] and [end_index] of the visible slice. *)
Definition visible_range (len current_block_index visible : Z) : Z * Z :=
  let start_index := Z.max 0 (current_block_index - visible / 2) in
  let end_index := Z.min len (start_index + visible) in
  let start_index :=
    if (end_index - start_index <? visible)%Z
    then Z.max 0 (end_index - visible)
    else start_index in
  (start_index, end_index).

(** [blocks[start_index:end_index]] for a [start_index] that is not
    negative. *)
Definition slice (blocks : list AudioBlock) (start_index end_index : Z)
  : list AudioBlock :=
  take (Z.to_nat end_index - Z.to_nat start_index) (drop (Z.to_nat start_index) blocks).

(** [int(((t - time_start) / time_range) * width)], on the exact
    quotient and product. *)
Definition x_of (time_start time_range : Q) (width : Z) (t : Q) : Z :=
  Py.int (((t - time_start) / time_range) * inject_Z width).

Definition paintEvent (self : BlockTimeline) (width : Z) : paint_outcome :=
  match timeline_blocks self with
  | [] => NotPainted
  | _ :: _ =>
      if Qeq_bool (total_duration self) 0 then NotPainted
      else
        let blocks := timeline_blocks self in
        let current_block_index :=
          VideoPlayer.find_block_at blocks (timeline_position self) in
        let '(start_index, end_index) :=
          visible_range (Z.of_nat (length blocks)) (Z.of_nat current_block_index)
                        (Z.of_nat (visible_blocks self)) in
        let visible := slice blocks start_index end_index in
        match head visible, last visible with
        | Some first_block, Some last_block =>
            let time_start := start first_block in
            let time_end := end_ last_block in
            let time_range := time_end - time_start in
            if Qeq_bool time_range 0 then PaintZeroDivisionError
            else
              Painted
                ((fun block =>
                    let start_x := x_of time_start time_range width (start block) in
                    let end_x := x_of time_start time_range width (end_ block) in
                    {| rect_x := start_x; rect_width := end_x - start_x;
                       rect_color := block_color block |}) <$> visible)
                (x_of time_start time_range width (timeline_position self))
        | _, _ => PaintIndexError
        end
  end.

End Painter.

(** ** The handlers as events

    The slots of the window that read or write the block model, as the
    event loop calls them, with what their dialogs and the analyzer
    return as arguments.  [load_state] reads a file and [save_state]
    writes one, so a session is the player together with the files.
    [zoom_in], [zoom_out], [duration_changed] and [show_help] write
    widgets only and are not events here. *)

Record Session := mkSession {
  player : VideoPlayer;
  storage : disk
}.

Inductive event :=
| PositionChanged (position : Z)
| SkipTimeout
| ResetBlocks
| ToggleMode
| GotoNextBlock
| GotoPreviousBlock
| PlayPause
| SetPosition (position : Z)
| SaveState (filepath : string)
| LoadState (filepath : string)
| OpenFile (video_path : string) (reply_yes : bool)
           (output : list SilenceDetector.line) (duration_stdout : option Q)
| ExportGreenBlocks (output_path : string).

(** One slot call.  A raise that leaves [open_file] ends the handler;
    the session goes on from the model as the raise left it. *)
Definition handle (s : Session) (ev : event) : Session :=
  let self := player s in
  let d := storage s in
  match ev with
  | PositionChanged position =>
      mkSession (VideoPlayer.position_changed self position) d
  | SkipTimeout => mkSession (VideoPlayer.skip_silence self) d
  | ResetBlocks => mkSession (VideoPlayer.reset_blocks self) d
  | ToggleMode => mkSession (VideoPlayer.toggle_mode self) d
  | GotoNextBlock => mkSession (VideoPlayer.goto_next_block self) d
  | GotoPreviousBlock => mkSession (VideoPlayer.goto_previous_block self) d
  | PlayPause => mkSession (VideoPlayer.play_pause self) d
  | SetPosition position => mkSession (VideoPlayer.set_position self position) d
  | SaveState filepath => mkSession self (VideoPlayer.save_state self filepath d)
  | LoadState filepath => mkSession (VideoPlayer.load_state self filepath d) d
  | OpenFile video_path reply_yes output duration_stdout =>
      mkSession
        (VideoPlayer.open_file self video_path reply_yes output duration_stdout).1 d
  | ExportGreenBlocks output_path =>
      mkSession self (VideoPlayer.export_green_blocks_files self output_path d)
  end.

Definition run (s : Session) (events : list event) : Session :=
  foldl handle s events.

(** * Vocabulary of the statements *)

(** ** Spans and coverage *)

(** [p] lies in the closed span of [b]. *)
Definition inside (p : Q) (b : AudioBlock) : Prop :=
  start b <= p /\ p <= end_ b.

(** [p] lies in the half-open span of [b]. *)
Definition covers (b : AudioBlock) (p : Q) : Prop :=
  start b <= p /\ p < end_ b.

(** Silence intervals [(s, e)] in order from [t] on: none starts before
    the one before it ended, and none ends after [duration]. *)
Fixpoint valid_intervals (t : Q) (ivs : list (Q * Q)) (duration : Q) : Prop :=
  match ivs with
  | [] => t <= duration
  | (s, e) :: rest => t <= s /\ s <= e /\ valid_intervals e rest duration
  end.

(** [bs] tiles the span from [t] to [d]: the first block starts at [t],
    each block starts where the one before it ended, and the last one
    ends at [d]. *)
Fixpoint tiles (t : Q) (bs : list AudioBlock) (d : Q) : Prop :=
  match bs with
  | [] => t == d
  | b :: rest => start b == t /\ start b <= end_ b /\ tiles (end_ b) rest d
  end.

(** No non-silence block is followed by another one. *)
Definition no_adjacent_non_silence (bs : list AudioBlock) : Prop :=
  forall i b b',
    bs !! i = Some b -> bs !! S i = Some b' ->
    is_silence b = false -> is_silence b' = true.

(** The blocks that the loop of [build_blocks] and its trailing test
    append when the cursor is at [t], listed front to back; the proofs
    about the builder go through this form. *)
Fixpoint blocks_from (t : Q) (ivs : list (Q * Q)) (duration : Q) : list AudioBlock :=
  match ivs with
  | [] => if Py.ltb t duration then [AudioBlock_init t duration false] else []
  | (s, e) :: rest =>
      (if Py.ltb t s then [AudioBlock_init t s false] else [])
      ++ AudioBlock_init s e true :: blocks_from e rest duration
  end.

(** The structural invariant of a persisted block list: the first block
    starts at 0 and each block ends where the next one starts. *)
Definition structural_invariant (bs : list AudioBlock) : Prop :=
  (forall b, bs !! 0%nat = Some b -> start b == 0)
  /\ (forall i b b', bs !! i = Some b -> bs !! S i = Some b' -> end_ b == start b').

(** ** The export *)

(** The selection rule of the export: non-silence, visited, included. *)
Definition export_selected (b : AudioBlock) : Prop :=
  is_silence b = false /\ visited b = true /\ include b = true.

(** [idxs] lists, in increasing order, the indices of exactly those
    blocks of [bs] that satisfy [P]. *)
Definition indices_of (P : AudioBlock -> Prop) (bs : list AudioBlock)
    (idxs : list nat) : Prop :=
  StronglySorted lt idxs
  /\ forall i, i ∈ idxs <-> exists b, bs !! i = Some b /\ P b.

(** The indices, counted from [i], of the blocks the export selects;
    a device of the proofs about the export. *)
Fixpoint selected_indices (bs : list AudioBlock) (i : nat) : list nat :=
  match bs with
  | [] => []
  | b :: rest =>
      if VideoPlayer.selected b then i :: selected_indices rest (S i)
      else selected_indices rest (S i)
  end.

(** ** Auto-skip *)

(** Seconds the playhead has spent in [b], as [skip_silence] computes
    them: [position / 1000.0 - b.start] in float arithmetic. *)
Definition time_in_block (self : VideoPlayer) (b : AudioBlock) : Q :=
  Float.sub (Float.div (inject_Z (position (media_player self))) 1000) (start b).

(** The skip rule: silence that is not included, or non-silence whose
    float duration [end - start] is below the float 0.2. *)
Definition skip_due (b : AudioBlock) : Prop :=
  (is_silence b = true /\ include b = false)
  \/ (is_silence b = false /\ Float.sub (end_ b) (start b) < Float.round 0.2).

(** A block the auto-skip may land on: non-silence, with a float
    duration [end - start] of at least the float 0.3. *)
Definition stable (b : AudioBlock) : Prop :=
  is_silence b = false /\ Float.round 0.3 <= Float.sub (end_ b) (start b).

(** [bs !! j = Some b] is the nearest stable block strictly after [i]. *)
Definition nearest_stable_after (bs : list AudioBlock) (i j : nat)
    (b : AudioBlock) : Prop :=
  (i < j)%nat /\ bs !! j = Some b /\ stable b
  /\ forall k b', (i < k)%nat -> (k < j)%nat -> bs !! k = Some b' -> ~ stable b'.

(** ** Loading and the analyzer output *)

(** The manager [load_state] leaves behind when the file holds all the
    keys. *)
Definition loaded (self : BlockManager) (path : option string)
    (bs : list AudioBlock) : BlockManager :=
  {| blocks := bs;
     video_path := path;
     duration := match last bs with
                 | Some b => Some (end_ b)
                 | None => duration self
                 end |}.

(** The tokens after the [silence_start] markers of an output, in the
    order of the lines. *)
Definition start_markers (output : list SilenceDetector.line)
  : list SilenceDetector.token :=
  omap (fun l => match l with SilenceDetector.StartLine tok => Some tok | _ => None end)
       output.

(** The same for the [silence_end] markers. *)
Definition end_markers (output : list SilenceDetector.line)
  : list SilenceDetector.token :=
  omap (fun l => match l with SilenceDetector.EndLine tok => Some tok | _ => None end)
       output.

(** ** Flags of silence blocks *)

(** The blocks of [self] are those [detect_blocks] returned for some
    analyzer output and some probe. *)
Definition freshly_populated (self : VideoPlayer) : Prop :=
  exists output probe,
    SilenceDetector.detect_blocks output probe
    = Py.Ok (blocks (block_manager self)).

(** A block as the constructor leaves it. *)
Definition as_created (b : AudioBlock) : Prop :=
  include b = negb (is_silence b) /\ visited b = false.

(** A silence block carries the flags it was created with. *)
Definition silence_unflagged (b : AudioBlock) : Prop :=
  is_silence b = true -> include b = false /\ visited b = false.

(** [b'] is [b] up to the flags of a non-silence block. *)
Definition flags_only (b b' : AudioBlock) : Prop :=
  start b' = start b /\ end_ b' = end_ b /\ is_silence b' = is_silence b
  /\ (is_silence b = true -> b' = b).

(** Every block that [load_state] can read from a state file of [d]
    is a block with [silence_unflagged]. *)
Definition unflagged_files (d : disk) : Prop :=
  forall filepath state ds data b,
    files d !! filepath = Some (Json state) ->
    s_blocks state = Some ds ->
    data ∈ ds ->
    from_dict data = Py.Ok b ->
    silence_unflagged b.

(** [load_state] and [open_file] put other blocks in the place of the
    blocks of the model; the other handlers keep the list. *)
Definition replaces_model (ev : event) : bool :=
  match ev with
  | LoadState _ | OpenFile _ _ _ _ => true
  | _ => false
  end.

(** ** Sessions the statements are evaluated on *)

(** Five blocks that tile [0, 10) after the playhead went
    through blocks 0 and 2 in green mode and through block 4 in red
    mode. *)
Definition reviewed_blocks : list AudioBlock :=
  [ mkAudioBlock 0 2 false true true; mkAudioBlock 2 3 true false false;
    mkAudioBlock 3 (61 # 20) false true true; mkAudioBlock (61 # 20) 5.5 true false false;
    mkAudioBlock 5.5 10 false false true ].

(** A manager in the middle of a session on [talk.mp4]. *)
Definition session_manager : BlockManager :=
  {| blocks := reviewed_blocks;
     video_path := Some "talk.mp4"%string;
     duration := None |}.

(** A player in the middle of a review: six blocks, the playhead 120 ms
    into block 1, a silence block, while playing in green mode. *)
Definition skipping_player : VideoPlayer :=
  {| block_manager :=
       {| blocks :=
            [ AudioBlock_init 0 2 false; AudioBlock_init 2 3 true;
              AudioBlock_init 3 3.15 false; AudioBlock_init 3.15 4 true;
              AudioBlock_init 4 9 false; AudioBlock_init 9 10 true ];
          video_path := Some "talk.mp4"%string;
          duration := None |};
     current_block_index := 1;
     last_jumped_block_index := 0;
     green_mode := true;
     media_player := {| position := 2120; playbackState := PlayingState |} |}.

(** An analyzer run that ends inside a silence: two silences with their
    ends, and a third start at 9.5 that no end follows. *)
Definition dangling_output : list SilenceDetector.line :=
  [ SilenceDetector.OtherLine;
    SilenceDetector.StartLine (SilenceDetector.Number 2);
    SilenceDetector.EndLine (SilenceDetector.Number 3);
    SilenceDetector.StartLine (SilenceDetector.Number 5);
    SilenceDetector.EndLine (SilenceDetector.Number 5.5);
    SilenceDetector.StartLine (SilenceDetector.Number 9.5) ].

(** A player right after [open_file] processed the blocks of
    [dangling_output] for a 10 s video. *)
Definition fresh_player : VideoPlayer :=
  {| block_manager :=
       {| blocks :=
            [ AudioBlock_init 0 2 false; AudioBlock_init 2 3 true;
              AudioBlock_init 3 5 false; AudioBlock_init 5 5.5 true;
              AudioBlock_init 5.5 10 false ];
          video_path := Some "talk.mp4"%string;
          duration := None |};
     current_block_index := 0;
     last_jumped_block_index := 0;
     green_mode := true;
     media_player := {| position := 0; playbackState := StoppedState |} |}.

(** A short review: play, watch block 0, run into the first silence and
    be skipped past it, switch to red mode inside block 2, go back one
    block, reset, and watch the last block; then save the state, open
    the video again without processing it, load the saved state and
    export. *)
Definition review_session : list event :=
  [ PlayPause; PositionChanged 500; SetPosition 2150; PositionChanged 2150;
    SkipTimeout; PositionChanged 3050; ToggleMode; PositionChanged 4000;
    GotoPreviousBlock; PositionChanged 0; ResetBlocks; ToggleMode;
    SetPosition 6000; PositionChanged 6000;
    SaveState "review.json"; OpenFile "talk.mp4" false [] None;
    LoadState "review.json"; ExportGreenBlocks "talk_cut.mp4" ].

(** A state file whose two blocks are out of order and leave gaps. *)
Definition gapped_state : state_dict :=
  {| s_video_path := Some (Some "talk.mp4"%string);
     s_blocks := Some [ mkBlockDict (Some 5) (Some 7) (Some false) (Some true) (Some true);
                        mkBlockDict (Some 1) (Some 2) (Some true) (Some false) (Some false) ] |}.

(** A state file that names a video and has no [blocks] entry. *)
Definition truncated_state : state_dict :=
  {| s_video_path := Some (Some "other.mp4"%string); s_blocks := None |}.

(** A state file whose only block is a silence block marked included
    and visited. *)
Definition flagged_state : state_dict :=
  {| s_video_path := Some (Some "talk.mp4"%string);
     s_blocks := Some [ mkBlockDict (Some 0) (Some 1) (Some true) (Some true) (Some true) ] |}.

(** The files of the examples, and one path that cannot be written. *)
Definition session_disk : disk :=
  {| files := {[ "gapped.json"%string := Json gapped_state;
                 "truncated.json"%string := Json truncated_state;
                 "flagged.json"%string := Json flagged_state;
                 "notes.txt"%string := NotJson ]};
     unwritable := {[ "/proc/state.json"%string ]} |}.

(** The files at the start of the review: a state file written by
    hand and a text file. *)
Definition review_disk : disk :=
  {| files := {[ "gapped.json"%string := Json gapped_state;
                 "notes.txt"%string := NotJson ]};
     unwritable := {[ "/proc/state.json"%string ]} |}.

(** The review starts right after [open_file] processed the blocks. *)
Definition review_start : Session :=
  {| player := fresh_player; storage := review_disk |}.

(** The same start with [flagged.json] among the files. *)
Definition flagged_start : Session :=
  {| player := fresh_player; storage := session_disk |}.

(** ** Further vocabulary *)

(** The silence block of an interval. *)
Definition silence_block (iv : Q * Q) : AudioBlock :=
  AudioBlock_init iv.1 iv.2 true.

(** A non-silence block has a positive length. *)
Definition non_silence_positive (b : AudioBlock) : Prop :=
  is_silence b = false -> start b < end_ b.

(** [b'] has the span of [b]. *)
Definition same_span (b b' : AudioBlock) : Prop :=
  start b' = start b /\ end_ b' = end_ b.

(** A non-silence block as [reset_blocks] leaves it. *)
Definition is_reset (b : AudioBlock) : Prop :=
  is_silence b = false -> visited b = false /\ include b = true.

(** A block the playhead has not visited since it was created or
    reset. *)
Definition unvisited (b : AudioBlock) : Prop :=
  is_silence b = false -> visited b = false.

(** A player 300 ms into the video, 0.1 s after the start of a silence
    block, in front of a block that starts at 1.001 s. *)
Definition boundary_player : VideoPlayer :=
  {| block_manager :=
       {| blocks :=
            [ AudioBlock_init 0 0.2 false; AudioBlock_init 0.2 1.001 true;
              AudioBlock_init 1.001 3 false ];
          video_path := Some "talk.mp4"%string;
          duration := None |};
     current_block_index := 1;
     last_jumped_block_index := 0;
     green_mode := true;
     media_player := {| position := 300; playbackState := PlayingState |} |}.

(** The player of [session_manager], paused 4 s into the video. *)
Definition reviewed_player : VideoPlayer :=
  {| block_manager := session_manager;
     current_block_index := 3;
     last_jumped_block_index := 0;
     green_mode := false;
     media_player := {| position := 4000; playbackState := PausedState |} |}.

(** The timeline widget of [reviewed_player], zoomed to three blocks. *)
Definition review_timeline : BlockTimeline :=
  {| timeline_blocks := reviewed_blocks;
     timeline_position := 4;
     visible_blocks := 3;
     total_duration := 10 |}.

(** What [paintEvent] does once the slice [visible] is taken. *)
Definition paint_visible (self : BlockTimeline) (width : Z)
    (visible : list AudioBlock) : paint_outcome :=
  match head visible, last visible with
  | Some first_block, Some last_block =>
      let time_start := start first_block in
      let time_range := end_ last_block - time_start in
      if Qeq_bool time_range 0 then PaintZeroDivisionError
      else
        Painted
          ((fun block =>
              let start_x := Painter.x_of time_start time_range width (start block) in
              let end_x := Painter.x_of time_start time_range width (end_ block) in
              {| rect_x := start_x; rect_width := end_x - start_x;
                 rect_color := Painter.block_color block |}) <$> visible)
          (Painter.x_of time_start time_range width (timeline_position self))
  | _, _ => PaintIndexError
  end.

(** The slice [paintEvent] takes from the blocks of the widget. *)
Definition visible_slice (self : BlockTimeline) : list AudioBlock :=
  let bs := timeline_blocks self in
  let range :=
    Painter.visible_range (Z.of_nat (length bs))
      (Z.of_nat (VideoPlayer.find_block_at bs (timeline_position self)))
      (Z.of_nat (visible_blocks self)) in
  Painter.slice bs range.1 range.2.

(** * Properties *)

(** ** Comparisons *)

Lemma ltb_lt (a b : Q) : Py.ltb a b = true <-> a < b.
Proof.
  unfold Py.ltb. rewrite Qlt_alt.
  destruct (a ?= b); split; intros H; congruence.
Qed.

Lemma ltb_ge (a b : Q) : Py.ltb a b = false <-> b <= a.
Proof.
  rewrite <- not_true_iff_false, ltb_lt. split; intros H; lra.
Qed.

Lemma leb_le (a b : Q) : Py.leb a b = true <-> a <= b.
Proof. apply Qle_bool_iff. Qed.

Lemma leb_gt (a b : Q) : Py.leb a b = false <-> b < a.
Proof.
  rewrite <- not_true_iff_false, leb_le. split; intros H; lra.
Qed.

Lemma max_cases (a b : Q) :
  (a < b /\ Py.max a b = b) \/ (b <= a /\ Py.max a b = a).
Proof.
  unfold Py.max. destruct (Py.ltb a b) eqn:E.
  - left. split; [by apply ltb_lt | done].
  - right. split; [by apply ltb_ge | done].
Qed.

Ltac to_order :=
  repeat match goal with
    | H : Py.ltb _ _ = true |- _ => apply ltb_lt in H
    | H : Py.ltb _ _ = false |- _ => apply ltb_ge in H
    | H : Py.leb _ _ = true |- _ => apply leb_le in H
    | H : Py.leb _ _ = false |- _ => apply leb_gt in H
    end.

(** ** Block lookup by position *)

Section FindBlockAt.

Import VideoPlayer.

Lemma block_contains_inside p b : block_contains p b = true <-> inside p b.
Proof.
  unfold block_contains, inside.
  rewrite andb_true_iff, !leb_le. done.
Qed.

Lemma find_block_at_found (blocks : list AudioBlock) p i b :
  list_find (fun block => block_contains p block = true) blocks = Some (i, b) ->
  find_block_at blocks p = i.
Proof. unfold find_block_at. by intros ->. Qed.

Lemma find_block_at_none (blocks : list AudioBlock) p :
  list_find (fun block => block_contains p block = true) blocks = None ->
  find_block_at blocks p = 0%nat.
Proof. unfold find_block_at. by intros ->. Qed.

(** C7. [find_block_at blocks p] is the smallest index whose block has
    [start <= p <= end], both ends included, and it is [0] when no block
    contains [p]; on a boundary shared by two blocks it is therefore the
    earlier one. *)
Theorem find_block_at_first_match (blocks : list AudioBlock) (p : Q) :
  (forall j bj, blocks !! j = Some bj -> inside p bj ->
     exists b, blocks !! find_block_at blocks p = Some b
               /\ inside p b
               /\ (find_block_at blocks p <= j)%nat)
  /\ ((forall j bj, blocks !! j = Some bj -> ~ inside p bj) ->
      find_block_at blocks p = 0%nat).
Proof.
  destruct (list_find (fun block => block_contains p block = true) blocks)
    as [[i b]|] eqn:Hfind.
  - rewrite (find_block_at_found _ _ _ _ Hfind).
    apply list_find_Some in Hfind as (Hi & Hb & Hmin).
    apply block_contains_inside in Hb.
    split.
    + intros j bj Hj Hin. exists b. split_and!; [done..|].
      destruct (decide (i <= j)%nat) as [|Hlt]; [done|].
      exfalso. apply (Hmin j bj Hj); [lia|].
      by apply block_contains_inside.
    + intros Hnone. exfalso. by apply (Hnone i b).
  - rewrite (find_block_at_none _ _ Hfind).
    apply list_find_None in Hfind.
    split; [|done].
    intros j bj Hj Hin. exfalso.
    rewrite Forall_forall in Hfind.
    apply (Hfind bj).
    + apply list_elem_of_lookup. eauto.
    + by apply block_contains_inside.
Qed.

Lemma find_block_at_first_match_witness :
  find_block_at reviewed_blocks 3 = 1%nat
  /\ find_block_at reviewed_blocks 11 = 0%nat
  /\ find_block_at [] 3 = 0%nat.
Proof.
  destruct (find_block_at_first_match reviewed_blocks 3) as [Hfirst _].
  destruct (Hfirst 1%nat (mkAudioBlock 2 3 true false false)) as (b & Hb & Hin & Hle).
  { reflexivity. }
  { split; vm_compute; discriminate. }
  split_and!.
  - destruct (find_block_at reviewed_blocks 3) as [|[|n]] eqn:E.
    + exfalso. vm_compute in Hb. inversion Hb; subst b.
      destruct Hin as [_ Hhi]. vm_compute in Hhi. by apply Hhi.
    + reflexivity.
    + lia.
  - apply (find_block_at_first_match reviewed_blocks 11).
    intros j bj Hj [_ Hhi].
    destruct j as [|[|[|[|[|j]]]]]; vm_compute in Hj; inversion Hj; subst bj;
      vm_compute in Hhi; by apply Hhi.
  - apply (find_block_at_first_match [] 3). by intros j bj Hj.
Defined.

Lemma find_block_at_in_range (blocks : list AudioBlock) p :
  blocks <> [] -> (find_block_at blocks p < length blocks)%nat.
Proof.
  intros Hne.
  destruct (list_find (fun block => block_contains p block = true) blocks)
    as [[i b]|] eqn:Hfind.
  - rewrite (find_block_at_found _ _ _ _ Hfind).
    apply list_find_Some in Hfind as (Hi & _). by apply lookup_lt_Some in Hi.
  - rewrite (find_block_at_none _ _ Hfind). destruct blocks; simpl; [done | lia].
Qed.

(** [position_changed] makes the block found at the position the
    current block. *)
Lemma position_changed_index self position :
  blocks (block_manager self) <> [] ->
  current_block_index (position_changed self position)
  = find_block_at (blocks (block_manager self)) (inject_Z position / 1000).
Proof.
  intros Hne. unfold position_changed.
  pose proof (find_block_at_in_range _ (inject_Z position / 1000) Hne) as Hlt.
  destruct (blocks (block_manager self)) as [|b0 rest] eqn:Hbs; [done|].
  rewrite <- Hbs in *.
  apply lookup_lt_is_Some_2 in Hlt as [cur Hcur]. rewrite Hcur.
  by destruct (is_silence cur).
Qed.

End FindBlockAt.

(** ** The block builder *)

Section BlockBuilder.

Import SilenceDetector.

Lemma foldl_block_step ivs : forall t acc duration,
  (let '(current_time, blocks) := foldl block_step (t, acc) ivs in
   if Py.ltb current_time duration
   then blocks ++ [AudioBlock_init current_time duration false]
   else blocks)
  = acc ++ blocks_from t ivs duration.
Proof.
  induction ivs as [|[s e] rest IH]; intros t acc duration; simpl.
  - destruct (Py.ltb t duration); [done | by rewrite app_nil_r].
  - rewrite IH. destruct (Py.ltb t s); simpl.
    + by rewrite <- !app_assoc.
    + by rewrite <- app_assoc.
Qed.

Lemma build_blocks_unfold starts ends duration :
  build_blocks starts ends duration = blocks_from 0 (zip starts ends) duration.
Proof. unfold build_blocks. by rewrite foldl_block_step. Qed.

Lemma tiles_proper bs : forall t t' d d',
  t == t' -> d == d' -> tiles t bs d -> tiles t' bs d'.
Proof.
  induction bs as [|b rest IH]; simpl; intros t t' d d' Ht Hd.
  - intros H. lra.
  - intros (H1 & H2 & H3). split_and!; [lra | done |].
    by apply (IH (end_ b) (end_ b) d d').
Qed.

Lemma blocks_from_tiles ivs : forall t duration,
  valid_intervals t ivs duration -> tiles t (blocks_from t ivs duration) duration.
Proof.
  induction ivs as [|[s e] rest IH]; simpl; intros t duration.
  - intros Hle. destruct (Py.ltb t duration) eqn:E; to_order; simpl.
    + split_and!; lra.
    + lra.
  - intros (Hts & Hse & Hrest).
    destruct (Py.ltb t s) eqn:E; to_order; simpl.
    + split_and!; try lra. by apply IH.
    + split_and!; try lra. by apply IH.
Qed.

Lemma tiles_bounds bs : forall t d i b,
  tiles t bs d -> bs !! i = Some b -> t <= start b /\ end_ b <= d.
Proof.
  induction bs as [|b0 rest IH]; intros t d i b; [done|].
  simpl. intros (H1 & H2 & H3) Hi.
  destruct i as [|i]; simpl in Hi.
  - inversion Hi; subst b0. split; [lra|].
    clear -H3. revert H3. generalize (end_ b). clear.
    induction rest as [|b1 rest IH]; simpl; intros q H; [lra|].
    destruct H as (Ha & Hb & Hc). apply IH in Hc. lra.
  - destruct (IH _ _ _ _ H3 Hi) as [Ha Hb]. split; lra.
Qed.

Lemma tiles_cover bs : forall t d p,
  tiles t bs d -> t <= p -> p < d ->
  exists i b, bs !! i = Some b /\ covers b p.
Proof.
  induction bs as [|b0 rest IH]; simpl; intros t d p.
  - intros H ? ?. lra.
  - intros (H1 & H2 & H3) Hlo Hhi.
    destruct (Qlt_le_dec p (end_ b0)) as [Hin|Hout].
    + exists 0%nat, b0. split; [done|]. unfold covers. lra.
    + destruct (IH _ _ p H3 Hout Hhi) as (i & b & Hi & Hc).
      by exists (S i), b.
Qed.

Lemma tiles_ordered bs : forall t d i j bi bj,
  tiles t bs d -> bs !! i = Some bi -> bs !! j = Some bj ->
  (i < j)%nat -> end_ bi <= start bj.
Proof.
  induction bs as [|b0 rest IH]; intros t d i j bi bj; [done|].
  simpl. intros (H1 & H2 & H3) Hi Hj Hlt.
  destruct j as [|j]; [lia|]. simpl in Hj.
  destruct i as [|i]; simpl in Hi.
  - inversion Hi; subst b0.
    by destruct (tiles_bounds _ _ _ _ _ H3 Hj).
  - apply (IH _ _ i j bi bj H3 Hi Hj). lia.
Qed.

Lemma tiles_disjoint bs t d p i j bi bj :
  tiles t bs d -> bs !! i = Some bi -> bs !! j = Some bj ->
  covers bi p -> covers bj p -> i = j.
Proof.
  intros Ht Hi Hj [Hi1 Hi2] [Hj1 Hj2].
  destruct (lt_eq_lt_dec i j) as [[Hlt|Heq]|Hgt]; [|done|]; exfalso.
  - pose proof (tiles_ordered _ _ _ _ _ _ _ Ht Hi Hj Hlt). lra.
  - pose proof (tiles_ordered _ _ _ _ _ _ _ Ht Hj Hi Hgt). lra.
Qed.

(** The first block of [blocks_from] after a silence block, if any, is
    what decides adjacency. *)
Lemma blocks_from_no_adjacent ivs : forall t duration,
  no_adjacent_non_silence (blocks_from t ivs duration).
Proof.
  unfold no_adjacent_non_silence.
  induction ivs as [|[s e] rest IH]; simpl; intros t duration i b b'.
  - destruct (Py.ltb t duration); destruct i; simpl; naive_solver.
  - destruct (Py.ltb t s); simpl.
    + destruct i as [|[|i]]; simpl.
      * intros _ Hb' _. by inversion Hb'.
      * intros Hb _ Hs. inversion Hb; subst b. done.
      * apply IH.
    + destruct i as [|i]; simpl.
      * intros Hb _ Hs. inversion Hb; subst b. done.
      * apply IH.
Qed.

(** C2. On ordered, non-overlapping silence intervals inside
    [0, duration) and a positive duration, the blocks of [build_blocks]
    tile [0, duration): every instant lies in exactly one block, and no
    non-silence block follows another.  The intervals (2,3), (5,5.5)
    with duration 10 give the five blocks of the scenario, and no
    interval at all gives one non-silence block over the whole
    duration. *)
Theorem build_blocks_covers_timeline :
  (forall (starts ends : list Q) (duration : Q),
     0 < duration ->
     valid_intervals 0 (zip starts ends) duration ->
     let bs := build_blocks starts ends duration in
     tiles 0 bs duration
     /\ (forall p, 0 <= p -> p < duration ->
           exists i b, bs !! i = Some b /\ covers b p)
     /\ (forall p i j bi bj,
           bs !! i = Some bi -> bs !! j = Some bj ->
           covers bi p -> covers bj p -> i = j)
     /\ no_adjacent_non_silence bs)
  /\ build_blocks [2; 5] [3; 5.5] 10
     = [ AudioBlock_init 0 2 false; AudioBlock_init 2 3 true;
         AudioBlock_init 3 5 false; AudioBlock_init 5 5.5 true;
         AudioBlock_init 5.5 10 false ]
  /\ (forall duration, 0 < duration ->
        build_blocks [] [] duration = [AudioBlock_init 0 duration false]).
Proof.
  split_and!.
  - intros starts ends duration Hpos Hvalid bs. subst bs.
    rewrite build_blocks_unfold.
    pose proof (blocks_from_tiles _ _ _ Hvalid) as Htiles.
    split_and!.
    + done.
    + intros p Hlo Hhi. by apply (tiles_cover _ 0 duration).
    + intros p i j bi bj. by apply (tiles_disjoint _ 0 duration).
    + apply blocks_from_no_adjacent.
  - reflexivity.
  - intros duration Hpos. unfold build_blocks. simpl.
    apply ltb_lt in Hpos. by rewrite Hpos.
Qed.

Lemma build_blocks_covers_timeline_witness :
  let bs := build_blocks [1; 4] [2; 6] 6 in
  bs = [ AudioBlock_init 0 1 false; AudioBlock_init 1 2 true;
         AudioBlock_init 2 4 false; AudioBlock_init 4 6 true ]
  /\ tiles 0 bs 6
  /\ no_adjacent_non_silence bs.
Proof.
  assert (Hpos : 0 < 6) by reflexivity.
  assert (Hvalid : valid_intervals 0 (zip [1; 4] [2; 6]) 6).
  { simpl. unfold Qle. simpl. lia. }
  destruct build_blocks_covers_timeline as [Hgen _].
  destruct (Hgen [1; 4] [2; 6] 6 Hpos Hvalid) as (Ht & _ & _ & Hn).
  split_and!; [reflexivity | exact Ht | exact Hn].
Defined.

End BlockBuilder.

(** ** The export plan *)

Section ExportPlanner.

Import VideoPlayer.

Lemma selected_export_selected b : selected b = true <-> export_selected b.
Proof.
  unfold selected, export_selected.
  rewrite !andb_true_iff, negb_true_iff. tauto.
Qed.

Lemma included_blocks_cons b rest :
  included_blocks (b :: rest)
  = if selected b then b :: included_blocks rest else included_blocks rest.
Proof.
  unfold included_blocks. destruct (selected b) eqn:E.
  - by rewrite filter_cons_True.
  - rewrite filter_cons_False; [done|]. by rewrite E.
Qed.

Lemma selected_indices_elem bs : forall i j,
  j ∈ selected_indices bs i
  <-> (i <= j)%nat /\ exists b, bs !! (j - i)%nat = Some b /\ selected b = true.
Proof.
  induction bs as [|b rest IH]; intros i j; simpl.
  - split; [by intros ?%elem_of_nil | by intros (_ & ? & ? & _)].
  - assert (Hrest : j ∈ selected_indices rest (S i)
                    <-> (i < j)%nat /\ exists b0, (b :: rest) !! (j - i)%nat = Some b0
                                                  /\ selected b0 = true).
    { rewrite IH. split.
      - intros (Hle & b0 & Hb0 & Hs). split; [lia|]. exists b0. split; [|done].
        replace (j - i)%nat with (S (j - S i)) by lia. done.
      - intros (Hlt & b0 & Hb0 & Hs). split; [lia|]. exists b0. split; [|done].
        replace (j - i)%nat with (S (j - S i)) in Hb0 by lia. done. }
    destruct (selected b) eqn:E.
    + rewrite elem_of_cons, Hrest. split.
      * intros [->|(Hlt & Hex)].
        -- split; [lia|]. exists b. by rewrite Nat.sub_diag.
        -- split; [lia | done].
      * intros (Hle & Hex).
        destruct (decide (j = i)) as [->|Hne]; [by left|].
        right. split; [lia | done].
    + rewrite Hrest. split.
      * intros (Hlt & Hex). split; [lia | done].
      * intros (Hle & b0 & Hb0 & Hs).
        destruct (decide (j = i)) as [->|Hne].
        -- rewrite Nat.sub_diag in Hb0. simpl in Hb0. congruence.
        -- split; [lia|]. by exists b0.
Qed.

Lemma selected_indices_sorted bs : forall i,
  StronglySorted lt (selected_indices bs i).
Proof.
  induction bs as [|b rest IH]; intros i; simpl; [constructor|].
  destruct (selected b); [|apply IH].
  constructor; [apply IH|].
  apply Forall_forall. intros j Hj.
  apply selected_indices_elem in Hj. lia.
Qed.

Lemma selected_indices_lookup bs : forall i k j,
  selected_indices bs i !! k = Some j ->
  exists b, bs !! (j - i)%nat = Some b /\ included_blocks bs !! k = Some b.
Proof.
  induction bs as [|b rest IH]; intros i k j; simpl; [done|].
  rewrite included_blocks_cons.
  assert (Hrest : forall k, selected_indices rest (S i) !! k = Some j ->
            exists b0, (b :: rest) !! (j - i)%nat = Some b0
                       /\ included_blocks rest !! k = Some b0).
  { intros k0 Hk. destruct (IH _ _ _ Hk) as (b0 & Hb0 & Hinc).
    assert (S i <= j)%nat.
    { apply (selected_indices_elem rest (S i) j).
      apply list_elem_of_lookup. eauto. }
    exists b0. split; [|done].
    replace (j - i)%nat with (S (j - S i)) by lia. done. }
  destruct (selected b) eqn:E.
  - destruct k as [|k]; simpl.
    + intros [= ->]. exists b. by rewrite Nat.sub_diag.
    + apply Hrest.
  - apply Hrest.
Qed.

Lemma selected_indices_length bs : forall i,
  length (selected_indices bs i) = length (included_blocks bs).
Proof.
  induction bs as [|b rest IH]; intros i; simpl; [done|].
  rewrite included_blocks_cons.
  destruct (selected b); simpl; by rewrite IH.
Qed.

Lemma selected_indices_spec bs :
  indices_of export_selected bs (selected_indices bs 0).
Proof.
  split; [apply selected_indices_sorted|].
  intros i. rewrite selected_indices_elem, Nat.sub_0_r.
  setoid_rewrite selected_export_selected.
  split; [by intros [_ ?] | intros ?; split; [lia | done]].
Qed.

Lemma export_green_blocks_runs self output_path :
  Py.truthy (video_path (block_manager self)) = true ->
  output_path <> EmptyString ->
  blocks (block_manager self) <> [] ->
  export_green_blocks self output_path
  = match included_blocks (blocks (block_manager self)) with
    | [] => ExportNoBlocksSelected
    | _ :: _ => Exported (export_segments (blocks (block_manager self)))
    end.
Proof.
  intros Hpath Hout Hblocks. unfold export_green_blocks.
  rewrite Hpath. simpl.
  rewrite bool_decide_eq_false_2 by done.
  rewrite bool_decide_eq_false_2 by done.
  done.
Qed.

(** C1. For a non-empty block list the export cuts exactly the blocks
    that are non-silence, visited and included: there is one segment per
    such block, the segments follow the order of the blocks in the
    timeline, and the segment of block [b] starts at [start b] and lasts
    [max(0.1, end b - start b)].  This is what [export_green_blocks] hands
    to the transcoder once a video path is set and an output path chosen. *)
Theorem export_plan_selects_in_order (bs : list AudioBlock) :
  bs <> [] ->
  exists idxs,
    indices_of export_selected bs idxs
    /\ length (export_segments bs) = length idxs
    /\ (forall k i, idxs !! k = Some i ->
          exists b, bs !! i = Some b
            /\ export_segments bs !! k
               = Some {| seg_index := k; seg_start := start b;
                         seg_duration := Py.max 0.1 (end_ b - start b) |}
            /\ 0.1 <= Py.max 0.1 (end_ b - start b)
            /\ end_ b - start b <= Py.max 0.1 (end_ b - start b))
    /\ (forall self output_path,
          blocks (block_manager self) = bs ->
          Py.truthy (video_path (block_manager self)) = true ->
          output_path <> EmptyString ->
          export_green_blocks self output_path
          = match idxs with
            | [] => ExportNoBlocksSelected
            | _ :: _ => Exported (export_segments bs)
            end).
Proof.
  intros Hne. exists (selected_indices bs 0).
  split_and!.
  - apply selected_indices_spec.
  - unfold export_segments. by rewrite length_imap, selected_indices_length.
  - intros k i Hk.
    destruct (selected_indices_lookup _ _ _ _ Hk) as (b & Hb & Hinc).
    rewrite Nat.sub_0_r in Hb. exists b. split_and!.
    + done.
    + unfold export_segments. rewrite list_lookup_imap, Hinc. done.
    + destruct (max_cases 0.1 (end_ b - start b)) as [[? ->]|[? ->]]; lra.
    + destruct (max_cases 0.1 (end_ b - start b)) as [[? ->]|[? ->]]; lra.
  - intros self output_path Hbs Hpath Hout. subst bs.
    rewrite export_green_blocks_runs by done.
    pose proof (selected_indices_length (blocks (block_manager self)) 0) as Hlen.
    destruct (included_blocks (blocks (block_manager self)));
      destruct (selected_indices (blocks (block_manager self)) 0);
      simpl in Hlen; congruence.
Qed.

Lemma export_plan_selects_in_order_witness :
  export_segments reviewed_blocks = [ mkSegment 0 0 2; mkSegment 1 3 0.1 ]
  /\ exists idxs,
       indices_of export_selected reviewed_blocks idxs
       /\ length (export_segments reviewed_blocks) = length idxs.
Proof.
  split.
  - vm_compute. reflexivity.
  - assert (Hne : reviewed_blocks <> []) by discriminate.
    destruct (export_plan_selects_in_order reviewed_blocks Hne)
      as (idxs & Hidx & Hlen & _).
    exists idxs. split; [exact Hidx | exact Hlen].
Defined.

End ExportPlanner.

(** ** Auto-skip *)

Section AutoSkip.

Import VideoPlayer.

Lemma should_skip_due b : should_skip b = true <-> skip_due b.
Proof.
  unfold should_skip, skip_due.
  destruct (is_silence b); simpl.
  - rewrite negb_true_iff. split; [by left | intros [[_ ?]|[? _]]; done].
  - destruct (Py.ltb (Float.sub (end_ b) (start b)) (Float.round 0.2)) eqn:E;
      to_order.
    + split; [intros _; by right | done].
    + split; [done | intros [[? _]|[_ ?]]; [done | lra]].
Qed.

Lemma suitable_stable b : suitable b = true <-> stable b.
Proof.
  unfold suitable, stable.
  rewrite andb_true_iff, negb_true_iff, leb_le. done.
Qed.

Lemma scan_suitable_found rest : forall n m b,
  rest !! m = Some b -> suitable b = true ->
  (forall k b', (k < m)%nat -> rest !! k = Some b' -> suitable b' = false) ->
  scan_suitable rest n = (n + m)%nat.
Proof.
  induction rest as [|b0 rest IH]; intros n m b Hm Hb Hbefore; [done|].
  simpl. destruct m as [|m]; simpl in Hm.
  - inversion Hm; subst b0. rewrite Hb. lia.
  - rewrite (Hbefore 0%nat b0) by (done || lia).
    rewrite (IH (S n) m b); [lia | done | done |].
    intros k b' Hk Hb'. apply (Hbefore (S k) b'); [lia | done].
Qed.

Lemma scan_suitable_none rest : forall n,
  (forall k b', rest !! k = Some b' -> suitable b' = false) ->
  scan_suitable rest n = (n + length rest)%nat.
Proof.
  induction rest as [|b0 rest IH]; intros n Hnone; simpl; [lia|].
  rewrite (Hnone 0%nat b0) by done.
  rewrite IH; [lia|].
  intros k b' Hb'. by apply (Hnone (S k) b').
Qed.

Lemma scan_nearest bs i j b :
  nearest_stable_after bs i j b ->
  scan_suitable (drop (i + 1) bs) (i + 1) = j.
Proof.
  intros (Hlt & Hj & Hst & Hmin).
  rewrite (scan_suitable_found _ _ (j - (i + 1)) b).
  - lia.
  - rewrite lookup_drop. by replace (i + 1 + (j - (i + 1)))%nat with j by lia.
  - by apply suitable_stable.
  - intros k b' Hk. rewrite lookup_drop. intros Hb'.
    apply not_true_iff_false. rewrite suitable_stable.
    apply (Hmin (i + 1 + k)%nat b'); [lia | lia | done].
Qed.

Lemma scan_exhausted bs i :
  (i < length bs)%nat ->
  (forall j b, (i < j)%nat -> bs !! j = Some b -> ~ stable b) ->
  bs !! scan_suitable (drop (i + 1) bs) (i + 1) = None.
Proof.
  intros Hi Hnone. rewrite scan_suitable_none.
  - apply lookup_ge_None. rewrite length_drop. lia.
  - intros k b'. rewrite lookup_drop. intros Hb'.
    apply not_true_iff_false. rewrite suitable_stable.
    apply (Hnone (i + 1 + k)%nat b'); [lia | done].
Qed.

(** [skip_silence] when [current_block_index] names a block. *)
Lemma skip_silence_in_range self cur :
  blocks (block_manager self) !! current_block_index self = Some cur ->
  skip_silence self
  = if Py.ltb (time_in_block self cur) (Float.round 0.1) then self
    else if should_skip cur then
      let bs := blocks (block_manager self) in
      let i := current_block_index self in
      match bs !! scan_suitable (drop (i + 1) bs) (i + 1) with
      | Some next_block =>
          let self1 :=
            set_current_block_index
              (set_media_player self
                 (QMediaPlayer.setPosition (media_player self)
                    (Py.int (Float.mul (Float.add (start next_block) 0.05) 1000))))
              (scan_suitable (drop (i + 1) bs) (i + 1)) in
          if decide (playbackState (media_player self1) <> PlayingState)
          then set_media_player self1 (QMediaPlayer.play (media_player self1))
          else self1
      | None => set_media_player self (QMediaPlayer.stop (media_player self))
      end
    else self.
Proof.
  intros Hcur. unfold skip_silence, time_in_block.
  pose proof (lookup_lt_Some _ _ _ Hcur) as Hlt.
  destruct (blocks (block_manager self)) as [|b0 rest] eqn:Hbs; [done|].
  rewrite <- Hbs in *.
  rewrite (proj2 (Nat.leb_gt _ _) Hlt).
  rewrite Hcur. done.
Qed.

(** An index past the end is first taken back to the last block. *)
Lemma skip_silence_clamps self :
  blocks (block_manager self) <> [] ->
  (length (blocks (block_manager self)) <= current_block_index self)%nat ->
  skip_silence self
  = skip_silence
      (set_current_block_index self (length (blocks (block_manager self)) - 1)).
Proof.
  intros Hne Hge.
  assert (Hlast : (length (blocks (block_manager self))
                   <=? length (blocks (block_manager self)) - 1)%nat = false).
  { apply Nat.leb_gt. destruct (blocks (block_manager self)); simpl; [done | lia]. }
  unfold skip_silence.
  cbn [set_current_block_index block_manager current_block_index media_player].
  destruct (blocks (block_manager self)) as [|b0 rest] eqn:Hbs; [done|].
  rewrite <- Hbs in *.
  rewrite (proj2 (Nat.leb_le _ _) Hge), Hlast. done.
Qed.

(** The tests on the floats of the source.  300 ms into the video and
    in a block that starts at 0.2, [300 / 1000.0 - 0.2] is
    0.09999999999999998: the slot returns at the guard. *)
Example skip_silence_at_guard : skip_silence boundary_player = boundary_player.
Proof. vm_compute. reflexivity. Qed.

(** [0.3 - 0.1] is 0.19999999999999998: the block is too short. *)
Example should_skip_short_float : should_skip (AudioBlock_init 0.1 0.3 false) = true.
Proof. vm_compute. reflexivity. Qed.

(** [2.3 - 2.0] is 0.2999999999999998: the block is passed over. *)
Example suitable_short_float : suitable (AudioBlock_init 2 2.3 false) = false.
Proof. vm_compute. reflexivity. Qed.

(** [(0.118 + 0.05) * 1000] is 167.99999999999997: the seek goes to
    167 ms. *)
Example skip_target_truncated :
  Py.int (Float.mul (Float.add 0.118 0.05) 1000) = 167%Z.
Proof. vm_compute. reflexivity. Qed.



End AutoSkip.

(** ** Saving and loading the state *)

Section SessionState.

Import BlockManager.

Lemma from_dict_to_dict b : from_dict (to_dict b) = Py.Ok b.
Proof. by destruct b. Qed.

Lemma blocks_from_dicts_to_dicts bs :
  blocks_from_dicts (blocks_to_dicts bs) = Py.Ok bs.
Proof.
  unfold blocks_to_dicts.
  induction bs as [|b rest IH]; [done|].
  rewrite fmap_cons. cbn [blocks_from_dicts].
  by rewrite from_dict_to_dict, IH.
Qed.

Lemma load_state_complete self filepath d path bs :
  files d !! filepath
  = Some (Json {| s_video_path := Some path;
                  s_blocks := Some (blocks_to_dicts bs) |}) ->
  load_state self filepath d = (true, loaded self path bs).
Proof.
  intros Hfile. unfold load_state, load_state_body, read_json.
  rewrite Hfile. simpl.
  rewrite blocks_from_dicts_to_dicts. simpl.
  unfold loaded. by destruct (last bs).
Qed.

Lemma save_state_writes self filepath d :
  blocks self <> [] -> filepath ∉ unwritable d ->
  save_state self filepath d
  = (true, {| files := <[filepath :=
                           Json {| s_video_path := Some (video_path self);
                                   s_blocks := Some (blocks_to_dicts (blocks self)) |}]>
                        (files d);
              unwritable := unwritable d |}).
Proof.
  intros Hne Hw. unfold save_state, write_json.
  destruct (blocks self) as [|b rest] eqn:Hbs; [done|].
  by rewrite decide_False.
Qed.

(** C6. A manager with blocks that is saved to a writable path and
    loaded back, into any manager, has the blocks it had, equal in
    [start], [end], [is_silence], [include] and [visited], and the video
    path it had.  A valid model is such a manager: a block list that
    covers a timeline is not empty. *)
Theorem save_load_round_trip (self other : BlockManager) (filepath : string) (d : disk) :
  blocks self <> [] ->
  filepath ∉ unwritable d ->
  exists d' restored,
    save_state self filepath d = (true, d')
    /\ load_state other filepath d' = (true, restored)
    /\ blocks restored = blocks self
    /\ video_path restored = video_path self.
Proof.
  intros Hne Hw. eexists _, _. split_and!.
  - by apply save_state_writes.
  - apply load_state_complete. simpl. apply lookup_insert_eq.
  - done.
  - done.
Qed.

Lemma save_load_round_trip_witness :
  exists d' restored,
    save_state session_manager "review.json" session_disk = (true, d')
    /\ load_state init "review.json" d' = (true, restored)
    /\ blocks restored = reviewed_blocks
    /\ video_path restored = Some "talk.mp4"%string.
Proof.
  assert (Hne : blocks session_manager <> []) by discriminate.
  assert (Hw : "review.json"%string ∉ unwritable session_disk).
  { unfold session_disk. simpl. rewrite elem_of_singleton. discriminate. }
  exact (save_load_round_trip session_manager init "review.json" session_disk Hne Hw).
Defined.

Lemma from_dict_ok data b : from_dict data = Py.Ok b <-> data = to_dict b.
Proof.
  split; [|intros ->; apply from_dict_to_dict].
  destruct data as [[s|] [e|] [sil|] [inc|] [vis|]]; simpl; try discriminate.
  by intros [= <-].
Qed.

Lemma blocks_from_dicts_ok ds : forall bs,
  blocks_from_dicts ds = Py.Ok bs <-> ds = blocks_to_dicts bs.
Proof.
  intros bs. split; [|intros ->; apply blocks_from_dicts_to_dicts].
  revert bs. induction ds as [|data rest IH]; intros bs; cbn [blocks_from_dicts].
  - by intros [= <-].
  - destruct (from_dict data) as [b|e] eqn:Hb; simpl; [|discriminate].
    destruct (blocks_from_dicts rest) as [bs'|e] eqn:Hrest; simpl; [|discriminate].
    intros [= <-]. apply from_dict_ok in Hb.
    unfold blocks_to_dicts. rewrite fmap_cons. f_equal; [done|].
    by apply IH.
Qed.

(** What a failed [load_state] leaves: the blocks and the duration it
    found, and either the video path it found or the one of the file. *)
Lemma load_state_failure self filepath d self' :
  load_state self filepath d = (false, self') ->
  blocks self' = blocks self
  /\ duration self' = duration self
  /\ (video_path self' = video_path self
      \/ exists state, files d !! filepath = Some (Json state)
                       /\ s_video_path state = Some (video_path self')).
Proof.
  unfold load_state, load_state_body, read_json.
  destruct (files d !! filepath) as [[|state]|] eqn:Hfile;
    try (intros [= <-]; by split_and!; [..|left]).
  destruct (s_video_path state) as [path|] eqn:Hpath; simpl;
    try (intros [= <-]; by split_and!; [..|left]).
  destruct (s_blocks state) as [ds|]; simpl.
  - destruct (blocks_from_dicts ds); [discriminate|].
    intros [= <-]. split_and!; [done..|]. right. by exists state.
  - intros [= <-]. split_and!; [done..|]. right. by exists state.
Qed.




(** A restored model carries the flags of the file: after
    [flagged.json] is loaded the one block is a silence block that is
    included and visited. *)
Lemma load_state_restores_flags :
  blocks (block_manager (VideoPlayer.load_state fresh_player "flagged.json" session_disk))
  = [ mkAudioBlock 0 1 true true true ].
Proof. vm_compute. reflexivity. Qed.

(** C5 at a failing input.  [truncated.json] names another video and
    has no [blocks] entry: [load_state] returns [False], the blocks are
    those of the session, and the video path is already the one of the
    file. *)
Theorem load_state_failure_keeps_new_path :
  load_state session_manager "truncated.json" session_disk
  = (false, {| blocks := reviewed_blocks;
               video_path := Some "other.mp4"%string;
               duration := None |})
  /\ video_path session_manager = Some "talk.mp4"%string.
Proof. split; vm_compute; reflexivity. Qed.

End SessionState.

(** ** The analyzer's output *)

Section IntervalParser.

Import SilenceDetector.

Lemma scan_lines_markers output : forall ss es ss' es',
  scan_lines output ss es = Py.Ok (ss', es') ->
  exists new_ss new_es,
    ss' = ss ++ new_ss /\ es' = es ++ new_es
    /\ start_markers output = Number <$> new_ss
    /\ end_markers output = Number <$> new_es.
Proof.
  induction output as [|l rest IH]; intros ss es ss' es'; cbn [scan_lines].
  - intros [= <- <-]. exists [], []. by rewrite !app_nil_r.
  - destruct l as [[t| |]|[t| |]|]; simpl; try discriminate.
    + intros H. destruct (IH _ _ _ _ H) as (ns & ne & -> & -> & Hs & He).
      exists (t :: ns), ne. rewrite <- app_assoc. split_and!; try done.
      unfold start_markers in *. simpl. by rewrite Hs.
    + intros H. destruct (IH _ _ _ _ H) as (ns & ne & -> & -> & Hs & He).
      exists ns, (t :: ne). rewrite <- app_assoc. split_and!; try done.
      unfold end_markers in *. simpl. by rewrite He.
    + apply IH.
Qed.

Lemma scan_lines_counts output starts ends :
  scan_lines output [] [] = Py.Ok (starts, ends) ->
  start_markers output = Number <$> starts
  /\ end_markers output = Number <$> ends.
Proof.
  intros H. destruct (scan_lines_markers _ _ _ _ _ H) as (ns & ne & -> & -> & Hs & He).
  done.
Qed.

Lemma detect_blocks_scanned output probe starts ends :
  scan_lines output [] [] = Py.Ok (starts, ends) ->
  detect_blocks output probe
  = try! duration <- read_duration probe;
    Py.Ok (build_blocks starts ends duration).
Proof. intros H. unfold detect_blocks. by rewrite H. Qed.

Lemma build_blocks_paired starts ends duration :
  build_blocks starts ends duration
  = build_blocks (take (length ends) starts) ends duration.
Proof.
  unfold build_blocks. by rewrite zip_with_take_l.
Qed.

(** C9. When an output has more [silence_start] markers than
    [silence_end] markers, the i-th start is paired with the i-th end
    and the starts left over are dropped: there are as many intervals as
    ends, and the blocks are those of the output without the unpaired
    starts, whatever their times. *)
Theorem dangling_start_discarded (output : list line) (probe : option Q)
    (starts ends : list Q) :
  scan_lines output [] [] = Py.Ok (starts, ends) ->
  (length (end_markers output) < length (start_markers output))%nat ->
  let paired := take (length ends) starts in
  (length paired = length ends /\ length paired < length starts)%nat
  /\ length (zip starts ends) = length ends
  /\ (forall i s e, zip starts ends !! i = Some (s, e)
                    <-> starts !! i = Some s /\ ends !! i = Some e)
  /\ zip starts ends = zip paired ends
  /\ detect_blocks output probe
     = (try! duration <- read_duration probe;
        Py.Ok (build_blocks paired ends duration))
  /\ (forall output',
        scan_lines output' [] [] = Py.Ok (paired, ends) ->
        detect_blocks output' probe = detect_blocks output probe).
Proof.
  intros Hscan Hmore paired. subst paired.
  destruct (scan_lines_counts _ _ _ Hscan) as [Hs He].
  rewrite Hs, He, !length_fmap in Hmore.
  split_and!.
  - rewrite length_take. lia.
  - rewrite length_take. lia.
  - rewrite length_zip_with_r; [done | lia].
  - intros i s e. rewrite lookup_zip_with_Some. split.
    + by intros (x & y & [= -> ->] & Hx & Hy).
    + intros [Hx Hy]. by exists s, e.
  - by rewrite zip_with_take_l.
  - rewrite (detect_blocks_scanned _ _ _ _ Hscan).
    destruct (read_duration probe); simpl; [|done].
    by rewrite build_blocks_paired.
  - intros output' Hscan'.
    rewrite (detect_blocks_scanned _ _ _ _ Hscan).
    rewrite (detect_blocks_scanned _ _ _ _ Hscan').
    destruct (read_duration probe); simpl; [|done].
    by rewrite (build_blocks_paired starts).
Qed.

Lemma dangling_start_discarded_witness :
  detect_blocks dangling_output (Some 10)
  = Py.Ok [ AudioBlock_init 0 2 false; AudioBlock_init 2 3 true;
            AudioBlock_init 3 5 false; AudioBlock_init 5 5.5 true;
            AudioBlock_init 5.5 10 false ]
  /\ zip [2; 5; 9.5] [3; 5.5] = zip [2; 5] [3; 5.5].
Proof.
  assert (Hscan : scan_lines dangling_output [] [] = Py.Ok ([2; 5; 9.5], [3; 5.5]))
    by reflexivity.
  assert (Hmore : (length (end_markers dangling_output)
                   < length (start_markers dangling_output))%nat)
    by (vm_compute; lia).
  destruct (dangling_start_discarded dangling_output (Some 10) _ _ Hscan Hmore)
    as (_ & _ & _ & Hzip & Hblocks & _).
  split; [|exact Hzip].
  rewrite Hblocks. reflexivity.
Defined.

(** [detect_blocks] on a probe that reports 0 s, and on one that reports
    a negative duration. *)
Lemma detect_blocks_accepts_zero_duration :
  detect_blocks [] (Some 0) = Py.Ok []
  /\ detect_blocks [StartLine (Number 1); EndLine (Number 2)] (Some (-3))
     = Py.Ok [AudioBlock_init 0 1 false; AudioBlock_init 1 2 true].
Proof. split; reflexivity. Qed.

(** C8, as the code has it.  A probe without a number makes
    [detect_blocks] raise, [ValueError] when the markers were read.  A
    duration that is zero or negative is taken as it is: the blocks are
    built from the markers, and without markers there is no block. *)
Theorem detect_blocks_duration_probe (output : list line) :
  (exists e, detect_blocks output None = Py.Raised e)
  /\ (forall starts ends,
        scan_lines output [] [] = Py.Ok (starts, ends) ->
        detect_blocks output None = Py.Raised Py.ValueError
        /\ (forall d, detect_blocks output (Some d)
                       = Py.Ok (build_blocks starts ends d))
        /\ (forall d, d <= 0 -> zip starts ends = [] ->
              detect_blocks output (Some d) = Py.Ok [])).
Proof.
  split.
  - unfold detect_blocks.
    destruct (scan_lines output [] []) as [markers|e]; simpl; eauto.
  - intros starts ends Hscan. split_and!.
    + by rewrite (detect_blocks_scanned _ _ _ _ Hscan).
    + intros d. by rewrite (detect_blocks_scanned _ _ _ _ Hscan).
    + intros d Hd Hzip. rewrite (detect_blocks_scanned _ _ _ _ Hscan). simpl.
      unfold build_blocks. rewrite Hzip. simpl.
      apply ltb_ge in Hd. by rewrite Hd.
Qed.

Lemma detect_blocks_duration_probe_witness :
  detect_blocks dangling_output None = Py.Raised Py.ValueError
  /\ detect_blocks [OtherLine] (Some (-1)) = Py.Ok [].
Proof.
  split.
  - destruct (detect_blocks_duration_probe dangling_output) as [_ H].
    destruct (H [2; 5; 9.5] [3; 5.5] eq_refl) as [Hnone _]. exact Hnone.
  - destruct (detect_blocks_duration_probe [OtherLine]) as [_ H].
    destruct (H [] [] eq_refl) as (_ & _ & Hneg).
    apply Hneg; [vm_compute; discriminate | reflexivity].
Defined.

End IntervalParser.

(** ** Silence blocks keep their flags *)

Section SilenceFlags.

Import VideoPlayer.

Lemma flags_only_refl b : flags_only b b.
Proof. by unfold flags_only. Qed.

Lemma flags_only_trans b1 b2 b3 :
  flags_only b1 b2 -> flags_only b2 b3 -> flags_only b1 b3.
Proof.
  unfold flags_only. intros (Hs & He & Hsil & Hkeep) (Hs' & He' & Hsil' & Hkeep').
  split_and!; try congruence.
  intros H. rewrite Hkeep' by congruence. by apply Hkeep.
Qed.

Lemma Forall2_flags_only_refl bs : Forall2 flags_only bs bs.
Proof. induction bs; constructor; [apply flags_only_refl | done]. Qed.

Lemma Forall2_flags_only_trans bs1 bs2 bs3 :
  Forall2 flags_only bs1 bs2 -> Forall2 flags_only bs2 bs3 ->
  Forall2 flags_only bs1 bs3.
Proof.
  intros H12. revert bs3.
  induction H12 as [|b1 b2 r1 r2 Hb Hr IH]; intros bs3 H23;
    inversion H23; subst; constructor.
  - by apply (flags_only_trans b1 b2).
  - by apply IH.
Qed.

Lemma mark_visited_flags_only b green :
  is_silence b = false -> flags_only b (mark_visited b green).
Proof. intros Hb. unfold flags_only. simpl. split_and!; try done. congruence. Qed.

Lemma reset_block_flags_only b : flags_only b (BlockManager.reset_block b).
Proof.
  unfold BlockManager.reset_block, flags_only.
  destruct (is_silence b) eqn:E; simpl; split_and!; done.
Qed.

Lemma position_changed_flags_only self position :
  Forall2 flags_only (blocks (block_manager self))
    (blocks (block_manager (position_changed self position))).
Proof.
  unfold position_changed.
  destruct (blocks (block_manager self)) as [|b0 rest] eqn:Hbs.
  { rewrite Hbs. constructor. }
  rewrite <- Hbs.
  destruct (blocks (block_manager self) !! _) as [cur|] eqn:Hcur;
    [|apply Forall2_flags_only_refl].
  destruct (is_silence cur) eqn:Hsil; simpl; [apply Forall2_flags_only_refl|].
  rewrite <- (list_insert_id _ _ _ Hcur) at 1.
  apply Forall2_insert; [apply Forall2_flags_only_refl|].
  by apply mark_visited_flags_only.
Qed.

Lemma reset_blocks_flags_only self :
  Forall2 flags_only (blocks (block_manager self))
    (blocks (block_manager (reset_blocks self))).
Proof.
  unfold reset_blocks.
  destruct (blocks (block_manager self)) as [|b0 rest] eqn:Hbs.
  { rewrite Hbs. constructor. }
  simpl. rewrite Hbs. clear.
  induction (b0 :: rest) as [|b bs IH]; simpl; constructor;
    [apply reset_block_flags_only | done].
Qed.

Lemma skip_silence_block_manager self :
  block_manager (skip_silence self) = block_manager self.
Proof.
  unfold skip_silence.
  destruct (blocks (block_manager self)); [done|].
  repeat (case_match || case_decide); done.
Qed.

Lemma goto_block_block_manager self next_index :
  block_manager (goto_block self next_index) = block_manager self.
Proof. unfold goto_block. repeat case_match; done. Qed.

Lemma handle_flags_only s ev :
  replaces_model ev = false ->
  Forall2 flags_only (blocks (block_manager (player s)))
    (blocks (block_manager (player (handle s ev)))).
Proof.
  intros Hkeeps. destruct ev; try discriminate Hkeeps; cbn [handle player].
  - apply position_changed_flags_only.
  - rewrite skip_silence_block_manager. apply Forall2_flags_only_refl.
  - apply reset_blocks_flags_only.
  - apply Forall2_flags_only_refl.
  - unfold goto_next_block. rewrite goto_block_block_manager.
    apply Forall2_flags_only_refl.
  - unfold goto_previous_block. case_match.
    + rewrite goto_block_block_manager. apply Forall2_flags_only_refl.
    + apply Forall2_flags_only_refl.
  - unfold play_pause. case_decide; apply Forall2_flags_only_refl.
  - apply Forall2_flags_only_refl.
  - apply Forall2_flags_only_refl.
  - apply Forall2_flags_only_refl.
Qed.

Lemma run_flags_only events : forall s,
  Forall (fun ev => replaces_model ev = false) events ->
  Forall2 flags_only (blocks (block_manager (player s)))
    (blocks (block_manager (player (run s events)))).
Proof.
  unfold run. induction events as [|ev rest IH]; intros s Hkeep; simpl.
  - apply Forall2_flags_only_refl.
  - inversion Hkeep as [|? ? Hev Hrest]; subst.
    eapply Forall2_flags_only_trans; [by apply handle_flags_only | by apply IH].
Qed.

Lemma blocks_from_as_created ivs : forall t duration,
  Forall as_created (blocks_from t ivs duration).
Proof.
  induction ivs as [|[s e] rest IH]; intros t duration; simpl.
  - destruct (Py.ltb t duration); repeat constructor.
  - destruct (Py.ltb t s); simpl; repeat constructor; apply IH.
Qed.

Lemma detect_blocks_as_created output probe bs :
  SilenceDetector.detect_blocks output probe = Py.Ok bs ->
  Forall as_created bs.
Proof.
  unfold SilenceDetector.detect_blocks.
  destruct (SilenceDetector.scan_lines output [] []) as [[starts ends]|]; simpl;
    [|discriminate].
  destruct (SilenceDetector.read_duration probe); simpl; [|discriminate].
  intros [= <-]. rewrite build_blocks_unfold. apply blocks_from_as_created.
Qed.

Lemma as_created_unflagged b : as_created b -> silence_unflagged b.
Proof. intros [Hinc Hvis] Hsil. by rewrite Hinc, Hsil. Qed.

Lemma flags_only_keeps_unflagged bs bs' :
  Forall silence_unflagged bs -> Forall2 flags_only bs bs' ->
  Forall silence_unflagged bs'.
Proof.
  intros Hbs Hrel. induction Hrel as [|b b' bs bs' Hb _ IH]; [constructor|].
  inversion Hbs as [|? ? Hun Hrest]; subst.
  constructor; [|by apply IH].
  destruct Hb as (_ & _ & Hsil & Hkeep).
  intros Hsilence. rewrite Hsil in Hsilence.
  rewrite (Hkeep Hsilence). by apply Hun.
Qed.

(** The blocks of a comprehension over [from_dict] come from the entries
    of the list. *)
Lemma blocks_from_dicts_entries ds : forall bs,
  BlockManager.blocks_from_dicts ds = Py.Ok bs ->
  Forall (fun b => exists data, data ∈ ds /\ from_dict data = Py.Ok b) bs.
Proof.
  induction ds as [|data rest IH]; intros bs; cbn [BlockManager.blocks_from_dicts].
  - intros [= <-]. constructor.
  - destruct (from_dict data) as [b|] eqn:Hb; [|discriminate].
    destruct (BlockManager.blocks_from_dicts rest) as [bs'|] eqn:Hrest; [|discriminate].
    cbn [Py.bind]. intros [= <-]. constructor.
    + exists data. split; [left | done].
    + eapply Forall_impl; [by apply IH|].
      intros b' (data' & Hin & Hok). exists data'. split; [by right | done].
Qed.

(** After [load_state] of the manager the blocks are the old ones or
    the blocks of the file. *)
Lemma load_state_body_blocks self filepath d :
  blocks (BlockManager.load_state_body self filepath d).1 = blocks self
  \/ exists state ds,
       files d !! filepath = Some (Json state)
       /\ s_blocks state = Some ds
       /\ BlockManager.blocks_from_dicts ds
          = Py.Ok (blocks (BlockManager.load_state_body self filepath d).1).
Proof.
  unfold BlockManager.load_state_body, read_json.
  destruct (files d !! filepath) as [[|state]|] eqn:Hfile; [by left | | by left].
  destruct (s_video_path state) as [path|]; cbn [getitem]; [|by left].
  destruct (s_blocks state) as [ds|] eqn:Hds; cbn [getitem Py.bind]; [|by left].
  destruct (BlockManager.blocks_from_dicts ds) as [bs|] eqn:Hbs; [|by left].
  right. exists state, ds. split_and!; [done | done |].
  by destruct (last bs).
Qed.

Lemma load_state_unflagged self filepath d :
  Forall silence_unflagged (blocks (block_manager self)) ->
  unflagged_files d ->
  Forall silence_unflagged (blocks (block_manager (load_state self filepath d))).
Proof.
  intros Hself Hfiles.
  assert (Hbm : Forall silence_unflagged
                  (blocks (BlockManager.load_state_body (block_manager self) filepath d).1)).
  { destruct (load_state_body_blocks (block_manager self) filepath d)
      as [-> | (state & ds & Hfile & Hds & Hbs)]; [done|].
    eapply Forall_impl; [by apply blocks_from_dicts_entries|].
    intros b (data & Hin & Hok). by apply (Hfiles filepath state ds data b). }
  unfold load_state, BlockManager.load_state.
  case_bool_decide; [done|].
  destruct (BlockManager.load_state_body (block_manager self) filepath d)
    as [bm [[]|e]]; exact Hbm.
Qed.

(** [open_file] leaves the blocks as they were, or none, or the blocks
    [detect_blocks] made. *)
Lemma open_file_unflagged self video_path reply_yes output duration_stdout :
  Forall silence_unflagged (blocks (block_manager self)) ->
  Forall silence_unflagged
    (blocks (block_manager
       (open_file self video_path reply_yes output duration_stdout).1)).
Proof.
  intros Hself. unfold open_file.
  destruct video_path as [|c rest]; [done|].
  destruct reply_yes; [|constructor].
  unfold BlockManager.process_blocks.
  cbn [block_manager set_media_player BlockManager.set_video_path video_path
       Py.truthy negb].
  destruct (SilenceDetector.detect_blocks output duration_stdout) as [bs|e] eqn:Hbs;
    cbn [Py.bind fst block_manager blocks]; [|constructor].
  eapply Forall_impl; [by apply (detect_blocks_as_created output duration_stdout)|].
  apply as_created_unflagged.
Qed.

(** A state file that [save_state] writes holds the flags of the
    model. *)
Lemma save_state_unflagged_files self filepath d :
  Forall silence_unflagged (blocks (block_manager self)) ->
  unflagged_files d ->
  unflagged_files (save_state self filepath d).
Proof.
  intros Hself Hfiles. unfold save_state, BlockManager.save_state.
  destruct (blocks (block_manager self)) as [|b0 rest] eqn:Hbs; [done|].
  rewrite <- Hbs in *. case_bool_decide; [done|].
  unfold write_json. case_decide; [done|]. cbn [snd].
  intros path state ds data b Hfile Hds Hin Hok. cbn [files] in Hfile.
  apply lookup_insert_Some in Hfile as [[_ Hstate] | [_ Hfile]].
  - injection Hstate as <-. cbn [s_blocks] in Hds. injection Hds as <-.
    unfold BlockManager.blocks_to_dicts in Hin.
    apply list_elem_of_fmap in Hin as (b' & -> & Hb').
    rewrite from_dict_to_dict in Hok. injection Hok as <-.
    by apply (proj1 (Forall_forall _ _) Hself).
  - by apply (Hfiles path state ds data b).
Qed.

Lemma export_unflagged_files self output_path d :
  unflagged_files d ->
  unflagged_files (export_green_blocks_files self output_path d).
Proof.
  intros Hfiles. unfold export_green_blocks_files.
  destruct (export_green_blocks self output_path); [done | done |].
  case_decide; [done|].
  intros path state ds data b Hfile. cbn [files] in Hfile.
  apply lookup_insert_Some in Hfile as [[_ Hstate] | [_ Hfile]]; [discriminate|].
  by apply (Hfiles path state ds data b).
Qed.

Lemma handle_unflagged s ev :
  Forall silence_unflagged (blocks (block_manager (player s))) ->
  unflagged_files (storage s) ->
  Forall silence_unflagged (blocks (block_manager (player (handle s ev))))
  /\ unflagged_files (storage (handle s ev)).
Proof.
  intros Hblocks Hfiles.
  destruct (replaces_model ev) eqn:Hev.
  - destruct ev; try discriminate Hev; cbn [handle player storage]; split; try done.
    + by apply load_state_unflagged.
    + by apply open_file_unflagged.
  - split.
    + apply (flags_only_keeps_unflagged (blocks (block_manager (player s))));
        [done | by apply handle_flags_only].
    + destruct ev; try discriminate Hev; cbn [handle player storage]; try done.
      * by apply save_state_unflagged_files.
      * by apply export_unflagged_files.
Qed.

Lemma run_unflagged events : forall s,
  Forall silence_unflagged (blocks (block_manager (player s))) ->
  unflagged_files (storage s) ->
  Forall silence_unflagged (blocks (block_manager (player (run s events))))
  /\ unflagged_files (storage (run s events)).
Proof.
  unfold run. induction events as [|ev rest IH]; intros s Hblocks Hfiles; simpl.
  - done.
  - destruct (handle_unflagged s ev Hblocks Hfiles) as [Hblocks' Hfiles'].
    by apply IH.
Qed.

Lemma review_disk_unflagged : unflagged_files review_disk.
Proof.
  intros path state ds data b Hfile Hds Hin Hok.
  unfold review_disk in Hfile. cbn [files] in Hfile.
  apply lookup_insert_Some in Hfile as [[_ Hstate] | [_ Hfile]].
  - injection Hstate as <-. cbn [gapped_state s_blocks] in Hds.
    injection Hds as <-.
    apply elem_of_cons in Hin as [-> | Hin];
      [|apply list_elem_of_singleton in Hin as ->];
      vm_compute in Hok; injection Hok as <-; intros Hsil; [discriminate Hsil | done].
  - apply lookup_singleton_Some in Hfile as [_ Hfile]. discriminate Hfile.
Qed.




End SilenceFlags.

(** * Further properties of the code *)

(** ** More on the block builder and the analyzer's output *)

Section BuilderFacts.

Import SilenceDetector.

Lemma blocks_from_silence ivs : forall t duration,
  filter (fun b => is_silence b = true) (blocks_from t ivs duration)
  = silence_block <$> ivs.
Proof.
  induction ivs as [|[s e] rest IH]; intros t duration; simpl.
  - by destruct (Py.ltb t duration).
  - rewrite filter_app, filter_cons_True by done. rewrite IH.
    by destruct (Py.ltb t s).
Qed.

Lemma blocks_from_length ivs : forall t duration,
  (length (blocks_from t ivs duration) <= 2 * length ivs + 1)%nat.
Proof.
  induction ivs as [|[s e] rest IH]; intros t duration; simpl.
  - destruct (Py.ltb t duration); simpl; lia.
  - rewrite length_app. simpl. specialize (IH e duration).
    destruct (Py.ltb t s); simpl; lia.
Qed.

Lemma blocks_from_non_silence_positive ivs : forall t duration,
  Forall non_silence_positive (blocks_from t ivs duration).
Proof.
  induction ivs as [|[s e] rest IH]; intros t duration; simpl.
  - destruct (Py.ltb t duration) eqn:E; to_order; repeat constructor.
    by intros _.
  - apply Forall_app. split.
    + destruct (Py.ltb t s) eqn:E; to_order; repeat constructor. by intros _.
    + constructor; [by intros ? | apply IH].
Qed.

(** X1. Whatever the marker lists and the duration, the silence blocks
    of [build_blocks] are the paired intervals, one block each and in
    their order, and there are at most two blocks per interval plus
    one. *)
Theorem build_blocks_silence_blocks (starts ends : list Q) (duration : Q) :
  filter (fun b => is_silence b = true) (build_blocks starts ends duration)
  = silence_block <$> zip starts ends
  /\ (length (build_blocks starts ends duration)
      <= 2 * length (zip starts ends) + 1)%nat.
Proof.
  rewrite build_blocks_unfold. split.
  - apply blocks_from_silence.
  - apply blocks_from_length.
Qed.

(** X2. Whatever the marker lists and the duration, also when the
    intervals overlap or pass the duration, a non-silence block of
    [build_blocks] has [start < end]: the gaps that are empty or
    negative get no block. *)
Theorem build_blocks_non_silence_positive (starts ends : list Q) (duration : Q) :
  Forall non_silence_positive (build_blocks starts ends duration).
Proof. rewrite build_blocks_unfold. apply blocks_from_non_silence_positive. Qed.

Lemma scan_lines_numbers output : forall ss es acc_s acc_e,
  start_markers output = Number <$> ss ->
  end_markers output = Number <$> es ->
  scan_lines output acc_s acc_e = Py.Ok (acc_s ++ ss, acc_e ++ es).
Proof.
  unfold start_markers, end_markers.
  induction output as [|l rest IH]; intros ss es acc_s acc_e; simpl.
  - destruct ss, es; try discriminate. intros _ _. by rewrite !app_nil_r.
  - destruct l as [tok|tok|]; simpl.
    + destruct ss as [|t ss]; [discriminate|]. rewrite fmap_cons.
      intros [= -> Hs] He. simpl.
      rewrite (IH ss es) by done. by rewrite <- app_assoc.
    + destruct es as [|t es]; [discriminate|]. rewrite fmap_cons.
      intros Hs [= -> He]. simpl.
      rewrite (IH ss es) by done. by rewrite <- app_assoc.
    + apply IH.
Qed.

(** X3. [detect_blocks] returns a block list exactly when every marker
    is followed by a number and the probe printed a number; the list is
    then that of [build_blocks] on these numbers.  One marker without a
    number, or a probe without one, makes the whole detection raise. *)
Theorem detect_blocks_succeeds_iff (output : list line) (probe : option Q)
    (bs : list AudioBlock) :
  detect_blocks output probe = Py.Ok bs
  <-> exists starts ends d,
        start_markers output = Number <$> starts
        /\ end_markers output = Number <$> ends
        /\ probe = Some d
        /\ bs = build_blocks starts ends d.
Proof.
  split.
  - unfold detect_blocks.
    destruct (scan_lines output [] []) as [[starts ends]|e] eqn:Hscan; simpl;
      [|discriminate].
    destruct probe as [d|]; simpl; [|discriminate].
    intros [= <-]. destruct (scan_lines_counts _ _ _ Hscan) as [Hs He].
    by exists starts, ends, d.
  - intros (starts & ends & d & Hs & He & -> & ->).
    unfold detect_blocks.
    rewrite (scan_lines_numbers output starts ends [] []) by done.
    done.
Qed.

Lemma detect_blocks_succeeds_iff_witness :
  exists starts ends d,
    start_markers dangling_output = Number <$> starts
    /\ end_markers dangling_output = Number <$> ends
    /\ Some 10 = Some d
    /\ build_blocks [2; 5; 9.5] [3; 5.5] 10 = build_blocks starts ends d.
Proof.
  apply (detect_blocks_succeeds_iff dangling_output (Some 10)
           (build_blocks [2; 5; 9.5] [3; 5.5] 10)).
  reflexivity.
Defined.

End BuilderFacts.

(** ** More on position updates *)

Section PositionFacts.

Import VideoPlayer.

Lemma find_block_at_index (bs : list AudioBlock) p j b :
  bs !! j = Some b -> inside p b ->
  (forall i bi, (i < j)%nat -> bs !! i = Some bi -> ~ inside p bi) ->
  find_block_at bs p = j.
Proof.
  intros Hj Hin Hbefore.
  apply (find_block_at_found bs p j b).
  apply list_find_Some. split_and!; [done | by apply block_contains_inside |].
  intros i bi Hi Hlt Hc. apply (Hbefore i bi Hlt Hi).
  by apply block_contains_inside.
Qed.

Lemma find_block_at_outside (bs : list AudioBlock) p :
  (forall i bi, bs !! i = Some bi -> ~ inside p bi) ->
  find_block_at bs p = 0%nat.
Proof.
  intros Hnone. apply find_block_at_none. apply list_find_None.
  apply Forall_forall. intros b Hb Hc.
  apply list_elem_of_lookup in Hb as [i Hi].
  apply (Hnone i b Hi). by apply block_contains_inside.
Qed.

(** X4. On a block list that tiles [0, d), the block found at [p] is the
    one with [start < p <= end]: a position on the boundary of two
    blocks is given to the earlier one.  Position 0, positions past [d]
    and negative positions all give index 0, so the fallback cannot be
    told from block 0. *)
Theorem find_block_at_tiled (bs : list AudioBlock) (d : Q) :
  tiles 0 bs d ->
  (forall j b p, bs !! j = Some b -> start b < p -> p <= end_ b ->
     find_block_at bs p = j)
  /\ (forall p, p == 0 \/ p < 0 \/ d < p -> find_block_at bs p = 0%nat).
Proof.
  intros Htiles. split.
  - intros j b p Hj Hlo Hhi.
    apply (find_block_at_index bs p j b Hj); [split; lra|].
    intros i bi Hlt Hi [_ Hin].
    pose proof (tiles_ordered _ _ _ _ _ _ _ Htiles Hi Hj Hlt). lra.
  - intros p [Hzero|[Hneg|Hpast]].
    + destruct bs as [|b0 rest]; [done|].
      apply (find_block_at_index _ p 0%nat b0); [done | | intros; lia].
      destruct Htiles as (H0 & Hle & _). split; lra.
    + apply find_block_at_outside. intros i bi Hi [Hin _].
      destruct (tiles_bounds _ _ _ _ _ Htiles Hi). lra.
    + apply find_block_at_outside. intros i bi Hi [_ Hin].
      destruct (tiles_bounds _ _ _ _ _ Htiles Hi). lra.
Qed.

Lemma find_block_at_tiled_witness :
  find_block_at (SilenceDetector.build_blocks [2; 5] [3; 5.5] 10) 5 = 2%nat
  /\ find_block_at (SilenceDetector.build_blocks [2; 5] [3; 5.5] 10) 12 = 0%nat.
Proof.
  assert (Htiles : tiles 0 (SilenceDetector.build_blocks [2; 5] [3; 5.5] 10) 10).
  { vm_compute. repeat split; discriminate. }
  destruct (find_block_at_tiled _ _ Htiles) as [Hin Hout].
  split.
  - apply (Hin 2%nat (AudioBlock_init 3 5 false)); [reflexivity | reflexivity |].
    vm_compute. discriminate.
  - apply Hout. right. right. reflexivity.
Defined.

Lemma list_find_same_span (bs bs' : list AudioBlock) p :
  Forall2 same_span bs bs' ->
  fst <$> list_find (fun block => block_contains p block = true) bs'
  = fst <$> list_find (fun block => block_contains p block = true) bs.
Proof.
  induction 1 as [|b b' r r' [Hs He] Hr IH]; [done|].
  cbn [list_find].
  assert (Hc : block_contains p b' = block_contains p b).
  { unfold block_contains. by rewrite Hs, He. }
  rewrite Hc. case_decide; [done|].
  destruct (list_find _ r') as [[i x]|], (list_find _ r) as [[j y]|];
    simpl in *; congruence.
Qed.

Lemma find_block_at_same_span (bs bs' : list AudioBlock) p :
  Forall2 same_span bs bs' -> find_block_at bs' p = find_block_at bs p.
Proof.
  intros H. apply (list_find_same_span _ _ p) in H. unfold find_block_at.
  destruct (list_find _ bs') as [[i x]|], (list_find _ bs) as [[j y]|];
    simpl in *; congruence.
Qed.

Lemma insert_same_span (bs : list AudioBlock) i cur green :
  bs !! i = Some cur ->
  Forall2 same_span bs (<[i := mark_visited cur green]> bs).
Proof.
  intros Hcur. rewrite <- (list_insert_id _ _ _ Hcur) at 1.
  apply Forall2_insert; [|done].
  clear. induction bs; constructor; done.
Qed.

(** [position_changed] on a model with blocks. *)
Lemma position_changed_found self position cur :
  blocks (block_manager self)
  !! find_block_at (blocks (block_manager self)) (inject_Z position / 1000)
  = Some cur ->
  position_changed self position
  = set_current_block_index
      (if negb (is_silence cur)
       then set_blocks self
              (<[find_block_at (blocks (block_manager self)) (inject_Z position / 1000)
                 := mark_visited cur (green_mode self)]> (blocks (block_manager self)))
       else self)
      (find_block_at (blocks (block_manager self)) (inject_Z position / 1000)).
Proof.
  intros Hcur. unfold position_changed.
  destruct (blocks (block_manager self)) as [|b0 rest] eqn:Hbs; [done|].
  rewrite <- Hbs in *. by rewrite Hcur.
Qed.

(** X5. A second [position_changed] with the same position changes
    nothing: the block found is the same, since the spans did not move,
    and it already carries the flags. *)
Theorem position_changed_idempotent (self : VideoPlayer) (position : Z) :
  position_changed (position_changed self position) position
  = position_changed self position.
Proof.
  destruct (blocks (block_manager self)) as [|b0 rest] eqn:Hbs.
  { unfold position_changed. rewrite Hbs. simpl. by rewrite Hbs. }
  assert (Hne : blocks (block_manager self) <> []) by (rewrite Hbs; done).
  clear Hbs b0 rest.
  pose proof (find_block_at_in_range _ (inject_Z position / 1000) Hne) as Hlt.
  apply lookup_lt_is_Some_2 in Hlt as [cur Hcur].
  rewrite (position_changed_found self position cur Hcur).
  set (i := find_block_at (blocks (block_manager self)) (inject_Z position / 1000)) in *.
  destruct (is_silence cur) eqn:Hsil; cbn [negb].
  - rewrite (position_changed_found _ position cur) by exact Hcur.
    cbn [block_manager set_current_block_index]. fold i. by rewrite Hsil.
  - pose proof (insert_same_span _ i cur (green_mode self) Hcur) as Hspan.
    pose proof (find_block_at_same_span _ _ (inject_Z position / 1000) Hspan) as Hfind.
    fold i in Hfind.
    set (bs1 := <[i := mark_visited cur (green_mode self)]> (blocks (block_manager self))) in *.
    assert (Hcur1 : bs1 !! i = Some (mark_visited cur (green_mode self))).
    { apply list_lookup_insert_eq. by apply lookup_lt_Some in Hcur. }
    rewrite (position_changed_found _ position (mark_visited cur (green_mode self)));
      cbn [block_manager set_current_block_index set_blocks blocks green_mode];
      rewrite Hfind; [|exact Hcur1].
    cbn [mark_visited is_silence]. rewrite Hsil. cbn [negb].
    unfold bs1. rewrite list_insert_insert_eq. done.
Qed.

Lemma export_selected_mark_visited cur green :
  is_silence cur = false ->
  export_selected (mark_visited cur green) <-> green = true.
Proof. unfold export_selected. simpl. tauto. Qed.

(** X6. Playing through a non-silence block decides its export: after
    [position_changed] finds such a block, the export selects it when
    the player is in green mode and drops it when it is in red mode,
    whatever its flags were; the selection of every other block is as
    before. *)
Theorem position_changed_decides_export (self : VideoPlayer) (position : Z)
    (cur : AudioBlock) (idxs idxs' : list nat) :
  let bs := blocks (block_manager self) in
  let i := find_block_at bs (inject_Z position / 1000) in
  bs !! i = Some cur ->
  is_silence cur = false ->
  indices_of export_selected bs idxs ->
  indices_of export_selected
    (blocks (block_manager (position_changed self position))) idxs' ->
  (i ∈ idxs' <-> green_mode self = true)
  /\ (forall j, j <> i -> (j ∈ idxs' <-> j ∈ idxs)).
Proof.
  intros bs i Hcur Hsil [_ Hidx] [_ Hidx']. subst bs i.
  rewrite (position_changed_found self position cur Hcur) in Hidx'.
  rewrite Hsil in Hidx'. cbn in Hidx'.
  set (i := find_block_at (blocks (block_manager self)) (inject_Z position / 1000)) in *.
  split.
  - rewrite Hidx'.
    rewrite list_lookup_insert_eq by (by apply lookup_lt_Some in Hcur).
    rewrite <- (export_selected_mark_visited cur (green_mode self) Hsil).
    split; [by intros (b & [= <-] & Hb) | intros Hb; eauto].
  - intros j Hne. rewrite Hidx', Hidx.
    by rewrite list_lookup_insert_ne.
Qed.

Lemma position_changed_decides_export_witness :
  let after := position_changed fresh_player 4000 in
  selected_indices (blocks (block_manager after)) 0 = [2%nat]
  /\ (2%nat ∈ selected_indices (blocks (block_manager after)) 0
      <-> green_mode fresh_player = true).
Proof.
  split; [reflexivity|].
  assert (Hcur : blocks (block_manager fresh_player)
                 !! find_block_at (blocks (block_manager fresh_player))
                      (inject_Z 4000 / 1000)
                 = Some (AudioBlock_init 3 5 false)) by reflexivity.
  destruct (position_changed_decides_export fresh_player 4000
              (AudioBlock_init 3 5 false)
              (selected_indices (blocks (block_manager fresh_player)) 0)
              (selected_indices
                 (blocks (block_manager (position_changed fresh_player 4000))) 0)
              Hcur eq_refl (selected_indices_spec _) (selected_indices_spec _))
    as [Hhere _].
  exact Hhere.
Defined.

End PositionFacts.

(** ** More on explicit navigation *)

Section NavigationFacts.

Import VideoPlayer.

Lemma not_non_silence b : ~ is_silence b = false <-> is_silence b = true.
Proof. destruct (is_silence b); split; congruence. Qed.

Lemma forward_found (bs : list AudioBlock) i j :
  find_next_non_silence_block_forward bs i = Some j
  <-> (i < j)%nat
      /\ (exists b, bs !! j = Some b /\ is_silence b = false)
      /\ (forall k b, (i < k)%nat -> (k < j)%nat -> bs !! k = Some b ->
            is_silence b = true).
Proof.
  unfold find_next_non_silence_block_forward. rewrite fmap_Some. split.
  - intros ([m b] & Hfind & ->). simpl.
    apply list_find_Some in Hfind as (Hm & Hb & Hbefore).
    rewrite lookup_drop in Hm. split_and!; [lia | eauto |].
    intros k bk Hlo Hhi Hk. apply not_non_silence.
    apply (Hbefore (k - (i + 1))%nat bk); [|lia].
    rewrite lookup_drop. by replace (i + 1 + (k - (i + 1)))%nat with k by lia.
  - intros (Hlt & (b & Hj & Hb) & Hbefore).
    exists ((j - (i + 1))%nat, b). split; [|simpl; lia].
    apply list_find_Some. split_and!.
    + rewrite lookup_drop. by replace (i + 1 + (j - (i + 1)))%nat with j by lia.
    + done.
    + intros m bm Hm Hlt'. rewrite lookup_drop in Hm.
      apply not_non_silence. apply (Hbefore (i + 1 + m)%nat bm); [lia | lia | done].
Qed.

Lemma forward_none (bs : list AudioBlock) i :
  find_next_non_silence_block_forward bs i = None
  <-> (forall k b, (i < k)%nat -> bs !! k = Some b -> is_silence b = true).
Proof.
  unfold find_next_non_silence_block_forward. rewrite fmap_None, list_find_None.
  rewrite Forall_forall. split.
  - intros Hall k b Hlt Hk. apply not_non_silence. apply Hall.
    apply list_elem_of_lookup. exists (k - (i + 1))%nat.
    rewrite lookup_drop. by replace (i + 1 + (k - (i + 1)))%nat with k by lia.
  - intros Hall b Hb. apply list_elem_of_lookup in Hb as [m Hm].
    rewrite lookup_drop in Hm. apply not_non_silence.
    apply (Hall (i + 1 + m)%nat b); [lia | done].
Qed.

(** X7. The forward search returns the nearest non-silence block
    strictly after [start_index], and [None] exactly when every later
    block is silence; it never wraps to the front. *)
Theorem find_next_forward_nearest (bs : list AudioBlock) (start_index : nat) :
  (forall j, find_next_non_silence_block_forward bs start_index = Some j
     <-> (start_index < j)%nat
         /\ (exists b, bs !! j = Some b /\ is_silence b = false)
         /\ (forall k b, (start_index < k)%nat -> (k < j)%nat ->
               bs !! k = Some b -> is_silence b = true))
  /\ (find_next_non_silence_block_forward bs start_index = None
      <-> forall k b, (start_index < k)%nat -> bs !! k = Some b ->
            is_silence b = true).
Proof. split; [intros j; apply forward_found | apply forward_none]. Qed.

Lemma find_next_forward_nearest_witness :
  find_next_non_silence_block_forward reviewed_blocks 0 = Some 2%nat
  /\ find_next_non_silence_block_forward reviewed_blocks 4 = None.
Proof.
  destruct (find_next_forward_nearest reviewed_blocks 0) as [Hsome _].
  destruct (find_next_forward_nearest reviewed_blocks 4) as [_ Hnone].
  split.
  - apply Hsome. split_and!; [lia | eexists; split; reflexivity |].
    intros k b Hlo Hhi Hk. assert (k = 1%nat) as -> by lia.
    vm_compute in Hk. by inversion Hk.
  - apply Hnone. intros k b Hlo Hk.
    apply lookup_lt_Some in Hk. simpl in Hk. lia.
Defined.

Lemma backward_found (bs : list AudioBlock) i cur : forall n,
  bs !! i = Some cur -> is_silence cur = false -> (i < n)%nat ->
  (n <= length bs)%nat ->
  (forall k b, (i < k)%nat -> (k < n)%nat -> bs !! k = Some b ->
     is_silence b = true) ->
  find_next_non_silence_block_backward bs n = Py.Ok (Some i).
Proof.
  induction n as [|n IH]; intros Hi Hcur Hlt Hlen Hbetween; [lia|].
  cbn [find_next_non_silence_block_backward].
  destruct (decide (n = i)) as [->|Hne].
  - by rewrite Hi, Hcur.
  - destruct (lookup_lt_is_Some_2 bs n) as [b Hb]; [lia|].
    rewrite Hb, (Hbetween n b) by (done || lia). cbn [negb].
    apply IH; [done | done | lia | lia |].
    intros k bk Hlo Hhi. apply Hbetween; lia.
Qed.

Lemma backward_spec (bs : list AudioBlock) : forall n,
  (n <= length bs)%nat ->
  exists r,
    find_next_non_silence_block_backward bs n = Py.Ok r
    /\ match r with
       | Some j =>
           (j < n)%nat
           /\ (exists b, bs !! j = Some b /\ is_silence b = false)
           /\ (forall k b, (j < k)%nat -> (k < n)%nat -> bs !! k = Some b ->
                 is_silence b = true)
       | None =>
           forall k b, (k < n)%nat -> bs !! k = Some b -> is_silence b = true
       end.
Proof.
  induction n as [|n IH]; intros Hlen.
  - exists None. split; [done | intros; lia].
  - cbn [find_next_non_silence_block_backward].
    destruct (lookup_lt_is_Some_2 bs n) as [b Hb]; [lia|].
    rewrite Hb. destruct (is_silence b) eqn:Hsil; cbn [negb].
    + destruct IH as (r & Hr & Hspec); [lia|].
      exists r. split; [done|]. destruct r as [j|].
      * destruct Hspec as (Hj & Hex & Hbetween). split_and!; [lia | done |].
        intros k bk Hlo Hhi Hk.
        destruct (decide (k = n)) as [->|Hne]; [congruence|].
        apply (Hbetween k bk); [lia | lia | done].
      * intros k bk Hk Hbk.
        destruct (decide (k = n)) as [->|Hne]; [congruence|].
        apply (Hspec k bk); [lia | done].
    + exists (Some n). split; [done|]. split_and!; [lia | eauto | intros; lia].
Qed.

(** X8. The backward search, started at an index that is at most the
    number of blocks, returns the nearest non-silence block strictly
    before it, and [None] when every earlier block is silence; it never
    wraps to the end.  Started past that, its first read raises
    [IndexError]. *)
Theorem find_next_backward_nearest (bs : list AudioBlock) (start_index : nat) :
  ((start_index <= length bs)%nat ->
   exists r,
     find_next_non_silence_block_backward bs start_index = Py.Ok r
     /\ match r with
        | Some j =>
            (j < start_index)%nat
            /\ (exists b, bs !! j = Some b /\ is_silence b = false)
            /\ (forall k b, (j < k)%nat -> (k < start_index)%nat ->
                  bs !! k = Some b -> is_silence b = true)
        | None =>
            forall k b, (k < start_index)%nat -> bs !! k = Some b ->
              is_silence b = true
        end)
  /\ ((length bs < start_index)%nat ->
      find_next_non_silence_block_backward bs start_index
      = Py.Raised Py.IndexError).
Proof.
  split; [apply backward_spec|].
  intros Hgt. destruct start_index as [|n]; [lia|].
  cbn [find_next_non_silence_block_backward].
  by rewrite (proj2 (lookup_ge_None bs n)) by lia.
Qed.

Lemma find_next_backward_nearest_witness :
  find_next_non_silence_block_backward reviewed_blocks 4 = Py.Ok (Some 2%nat)
  /\ find_next_non_silence_block_backward reviewed_blocks 7
     = Py.Raised Py.IndexError.
Proof.
  split.
  - reflexivity.
  - apply (find_next_backward_nearest reviewed_blocks 7). simpl. lia.
Defined.

Lemma goto_block_keeps self next_index :
  playbackState (media_player (goto_block self next_index))
  = playbackState (media_player self)
  /\ block_manager (goto_block self next_index) = block_manager self
  /\ green_mode (goto_block self next_index) = green_mode self.
Proof.
  unfold goto_block. destruct next_index as [j|]; [|done].
  destruct (blocks (block_manager self) !! j); [|done].
  case_bool_decide as Hplay; simpl; [|done]. by rewrite Hplay.
Qed.

Lemma goto_block_lands self j b :
  blocks (block_manager self) !! j = Some b ->
  current_block_index (goto_block self (Some j)) = j
  /\ position (media_player (goto_block self (Some j))) = Py.int (Float.mul (start b) 1000).
Proof.
  intros Hj. unfold goto_block. rewrite Hj.
  by case_bool_decide.
Qed.

Lemma goto_next_block_keeps self :
  playbackState (media_player (goto_next_block self))
  = playbackState (media_player self)
  /\ block_manager (goto_next_block self) = block_manager self
  /\ green_mode (goto_next_block self) = green_mode self.
Proof. apply goto_block_keeps. Qed.

Lemma goto_previous_block_keeps self :
  playbackState (media_player (goto_previous_block self))
  = playbackState (media_player self)
  /\ block_manager (goto_previous_block self) = block_manager self
  /\ green_mode (goto_previous_block self) = green_mode self.
Proof. unfold goto_previous_block. case_match; [apply goto_block_keeps | done]. Qed.

(** [1.001 * 1000] is 1000.9999999999999: the seek goes to 1000 ms. *)
Example goto_next_block_truncated :
  current_block_index (goto_next_block boundary_player) = 2%nat
  /\ position (media_player (goto_next_block boundary_player)) = 1000%Z.
Proof. vm_compute. split; reflexivity. Qed.

Lemma goto_next_block_lands self j b :
  (current_block_index self < j)%nat ->
  blocks (block_manager self) !! j = Some b -> is_silence b = false ->
  (forall k bk, (current_block_index self < k)%nat -> (k < j)%nat ->
     blocks (block_manager self) !! k = Some bk -> is_silence bk = true) ->
  current_block_index (goto_next_block self) = j
  /\ position (media_player (goto_next_block self)) = Py.int (Float.mul (start b) 1000).
Proof.
  intros Hlt Hj Hb Hbetween. unfold goto_next_block.
  rewrite (proj2 (forward_found _ _ j)) by eauto.
  by apply goto_block_lands.
Qed.

Lemma goto_previous_block_lands self j b :
  (current_block_index self <= length (blocks (block_manager self)))%nat ->
  (j < current_block_index self)%nat ->
  blocks (block_manager self) !! j = Some b -> is_silence b = false ->
  (forall k bk, (j < k)%nat -> (k < current_block_index self)%nat ->
     blocks (block_manager self) !! k = Some bk -> is_silence bk = true) ->
  current_block_index (goto_previous_block self) = j
  /\ position (media_player (goto_previous_block self)) = Py.int (Float.mul (start b) 1000).
Proof.
  intros Hlen Hlt Hj Hb Hbetween. unfold goto_previous_block.
  rewrite (backward_found _ j b) by done.
  by apply goto_block_lands.
Qed.

(** X9. [goto_next_block] moves to the nearest later non-silence block:
    the current index becomes its index and the player is sought to
    [int(start * 1000)], the float product truncated to whole
    milliseconds.  With no such block it changes nothing.  In both cases the playback state, the blocks and the mode
    are as before: a playing player keeps playing, a paused one stays
    paused. *)
Theorem goto_next_block_effect (self : VideoPlayer) :
  let bs := blocks (block_manager self) in
  let i := current_block_index self in
  (playbackState (media_player (goto_next_block self))
   = playbackState (media_player self)
   /\ block_manager (goto_next_block self) = block_manager self
   /\ green_mode (goto_next_block self) = green_mode self)
  /\ ((forall k b, (i < k)%nat -> bs !! k = Some b -> is_silence b = true) ->
      goto_next_block self = self)
  /\ (forall j b,
        (i < j)%nat -> bs !! j = Some b -> is_silence b = false ->
        (forall k bk, (i < k)%nat -> (k < j)%nat -> bs !! k = Some bk ->
           is_silence bk = true) ->
        current_block_index (goto_next_block self) = j
        /\ position (media_player (goto_next_block self)) = Py.int (Float.mul (start b) 1000)).
Proof.
  intros bs i. subst bs i. split_and!.
  - apply goto_next_block_keeps.
  - apply goto_next_block_keeps.
  - apply goto_next_block_keeps.
  - intros Hnone. apply forward_none in Hnone.
    unfold goto_next_block. by rewrite Hnone.
  - intros j b. apply goto_next_block_lands.
Qed.

Lemma goto_next_block_effect_witness :
  current_block_index (goto_next_block skipping_player) = 2%nat
  /\ position (media_player (goto_next_block skipping_player)) = 3000%Z.
Proof.
  destruct (goto_next_block_effect skipping_player) as (_ & _ & Hland).
  destruct (Hland 2%nat (AudioBlock_init 3 3.15 false)) as [Hidx Hpos].
  - simpl. lia.
  - reflexivity.
  - reflexivity.
  - intros k bk Hlo Hhi. simpl in Hlo. lia.
  - split; [exact Hidx|]. rewrite Hpos. vm_compute. reflexivity.
Defined.

(** X10. [goto_previous_block], from an index that is at most the number
    of blocks, moves to the nearest earlier non-silence block and seeks
    to [int(start * 1000)], the float product truncated to whole
    milliseconds, and changes nothing when there is none: from the first
    non-silence block it does not wrap to the end.  From an index past
    that the search raises and nothing is changed.  The playback state,
    the blocks and the mode are always as before. *)
Theorem goto_previous_block_effect (self : VideoPlayer) :
  let bs := blocks (block_manager self) in
  let i := current_block_index self in
  (playbackState (media_player (goto_previous_block self))
   = playbackState (media_player self)
   /\ block_manager (goto_previous_block self) = block_manager self
   /\ green_mode (goto_previous_block self) = green_mode self)
  /\ ((i <= length bs)%nat ->
      (forall k b, (k < i)%nat -> bs !! k = Some b -> is_silence b = true) ->
      goto_previous_block self = self)
  /\ ((length bs < i)%nat -> goto_previous_block self = self)
  /\ (forall j b,
        (i <= length bs)%nat ->
        (j < i)%nat -> bs !! j = Some b -> is_silence b = false ->
        (forall k bk, (j < k)%nat -> (k < i)%nat -> bs !! k = Some bk ->
           is_silence bk = true) ->
        current_block_index (goto_previous_block self) = j
        /\ position (media_player (goto_previous_block self))
           = Py.int (Float.mul (start b) 1000)).
Proof.
  intros bs i. subst bs i. split_and!.
  - apply goto_previous_block_keeps.
  - apply goto_previous_block_keeps.
  - apply goto_previous_block_keeps.
  - intros Hlen Hnone. unfold goto_previous_block.
    destruct (backward_spec _ _ Hlen) as (r & -> & Hspec).
    destruct r as [j|]; [|done].
    destruct Hspec as (Hj & (b & Hb & Hsil) & _).
    rewrite (Hnone j b Hj Hb) in Hsil. discriminate.
  - intros Hgt. unfold goto_previous_block.
    destruct (current_block_index self) as [|n] eqn:Hidx; [lia|].
    cbn [find_next_non_silence_block_backward].
    by rewrite (proj2 (lookup_ge_None _ n)) by lia.
  - intros j b. apply goto_previous_block_lands.
Qed.

Lemma goto_previous_block_effect_witness :
  current_block_index (goto_previous_block skipping_player) = 0%nat
  /\ goto_previous_block (goto_previous_block skipping_player)
     = goto_previous_block skipping_player.
Proof.
  destruct (goto_previous_block_effect skipping_player) as (_ & _ & _ & Hland).
  destruct (Hland 0%nat (AudioBlock_init 0 2 false)) as [Hidx _].
  - simpl. lia.
  - simpl. lia.
  - reflexivity.
  - reflexivity.
  - intros k bk Hlo Hhi. simpl in Hhi. lia.
  - split; [exact Hidx|].
    destruct (goto_previous_block_effect (goto_previous_block skipping_player))
      as (_ & Hstay & _).
    apply Hstay.
    + rewrite Hidx. lia.
    + rewrite Hidx. intros k b Hk. lia.
Defined.

(** X11. Next and then Previous comes back: from a current block that is
    non-silence, when [goto_next_block] finds a later block,
    [goto_previous_block] after it makes the first block current again
    and seeks to [int(start * 1000)] of it, the float product truncated
    to whole milliseconds, with the playback state it had. *)
Theorem goto_next_then_previous (self : VideoPlayer) (cur : AudioBlock) (j : nat) :
  let bs := blocks (block_manager self) in
  let i := current_block_index self in
  bs !! i = Some cur ->
  is_silence cur = false ->
  find_next_non_silence_block_forward bs i = Some j ->
  let back := goto_previous_block (goto_next_block self) in
  current_block_index back = i
  /\ position (media_player back) = Py.int (Float.mul (start cur) 1000)
  /\ playbackState (media_player back) = playbackState (media_player self)
  /\ block_manager back = block_manager self.
Proof.
  intros bs i Hcur Hsil Hfwd back. subst bs i back.
  apply forward_found in Hfwd as (Hlt & (b & Hj & Hb) & Hbetween).
  destruct (goto_next_block_keeps self) as (Hstate & Hbm & _).
  destruct (goto_next_block_lands self j b Hlt Hj Hb Hbetween) as [Hidx _].
  destruct (goto_previous_block_keeps (goto_next_block self)) as (Hstate' & Hbm' & _).
  destruct (goto_previous_block_lands (goto_next_block self)
              (current_block_index self) cur) as (Hidx' & Hpos').
  - rewrite Hbm, Hidx. apply lookup_lt_Some in Hj. lia.
  - rewrite Hidx. done.
  - by rewrite Hbm.
  - done.
  - rewrite Hbm, Hidx. done.
  - split_and!; [done | done | congruence | congruence].
Qed.

Lemma goto_next_then_previous_witness :
  let start := goto_previous_block skipping_player in
  current_block_index start = 0%nat
  /\ current_block_index (goto_next_block start) = 2%nat
  /\ current_block_index (goto_previous_block (goto_next_block start)) = 0%nat.
Proof.
  split_and!; [reflexivity | reflexivity |].
  destruct (goto_next_then_previous (goto_previous_block skipping_player)
              (AudioBlock_init 0 2 false) 2%nat) as [Hidx _];
    [reflexivity | reflexivity | reflexivity | exact Hidx].
Defined.

End NavigationFacts.

(** ** More on the auto-skip *)

Section SkipFacts.

Import VideoPlayer.

Lemma nearest_even_nonneg (num den : Z) :
  (0 <= num)%Z -> (0 < den)%Z -> (0 <= Float.nearest_even num den)%Z.
Proof.
  intros Hnum Hden. unfold Float.nearest_even.
  pose proof (Z.div_pos num den Hnum Hden).
  destruct (2 * (num mod den) ?= den)%Z; [destruct (Z.even _) | |]; lia.
Qed.

Lemma round_pos_nonneg (n d : positive) : 0 <= Float.round_pos n d.
Proof.
  unfold Float.round_pos.
  destruct (0 <=? Z.max (Float.log2_floor n d - 52) (-1074))%Z eqn:E.
  - apply Z.leb_le in E.
    change 0 with (inject_Z 0). rewrite <- Zle_Qle.
    apply Z.shiftl_nonneg. apply nearest_even_nonneg; [lia|].
    rewrite Z.shiftl_mul_pow2 by lia.
    pose proof (Z.pow_pos_nonneg 2 (Z.max (Float.log2_floor n d - 52) (-1074))).
    nia.
  - unfold Qle. simpl. rewrite Z.mul_1_r.
    apply nearest_even_nonneg; [|lia].
    apply Z.shiftl_nonneg. lia.
Qed.

(** Rounding keeps the sign. *)
Lemma round_nonneg (x : Q) : 0 <= x -> 0 <= Float.round x.
Proof.
  intros Hx. unfold Float.round. destruct x as [[|n|n] d]; simpl.
  - lra.
  - apply round_pos_nonneg.
  - unfold Qle in Hx. simpl in Hx. lia.
Qed.

Lemma round_nonpos (x : Q) : x <= 0 -> Float.round x <= 0.
Proof.
  intros Hx. unfold Float.round. destruct x as [[|n|n] d]; simpl.
  - lra.
  - unfold Qle in Hx. simpl in Hx. lia.
  - pose proof (round_pos_nonneg n d). lra.
Qed.

(** The floats 0.2 and 0.3 are in this order. *)
Lemma thresholds_ordered : Float.round 0.2 < Float.round 0.3.
Proof. vm_compute. reflexivity. Qed.

Lemma threshold_positive : 0 < Float.round 0.1.
Proof. vm_compute. reflexivity. Qed.

Lemma scan_suitable_ge rest : forall n, (n <= scan_suitable rest n)%nat.
Proof.
  induction rest as [|b rest IH]; intros n; simpl; [lia|].
  destruct (suitable b); [lia|]. specialize (IH (S n)). lia.
Qed.

Lemma scan_suitable_lands rest : forall n b,
  rest !! (scan_suitable rest n - n)%nat = Some b -> suitable b = true.
Proof.
  induction rest as [|b0 rest IH]; intros n b; simpl; [done|].
  destruct (suitable b0) eqn:E.
  - rewrite Nat.sub_diag. simpl. by intros [= <-].
  - pose proof (scan_suitable_ge rest (S n)).
    replace (scan_suitable rest (S n) - n)%nat
      with (S (scan_suitable rest (S n) - S n)) by lia.
    simpl. apply IH.
Qed.

(** The three ways a tick can end when the current index names a
    block. *)
Lemma skip_silence_cases self cur :
  blocks (block_manager self) !! current_block_index self = Some cur ->
  skip_silence self = self
  \/ (exists j next_block,
        (current_block_index self < j)%nat
        /\ blocks (block_manager self) !! j = Some next_block
        /\ suitable next_block = true
        /\ current_block_index (skip_silence self) = j
        /\ position (media_player (skip_silence self))
           = Py.int (Float.mul (Float.add (start next_block) 0.05) 1000)
        /\ block_manager (skip_silence self) = block_manager self)
  \/ skip_silence self
     = set_media_player self (QMediaPlayer.stop (media_player self)).
Proof.
  intros Hcur. rewrite (skip_silence_in_range self cur Hcur).
  destruct (Py.ltb (time_in_block self cur) (Float.round 0.1)); [by left|].
  destruct (should_skip cur); [|by left]. cbv zeta.
  set (i := current_block_index self).
  set (bs := blocks (block_manager self)).
  destruct (bs !! scan_suitable (drop (i + 1) bs) (i + 1)) as [nb|] eqn:Hnext;
    [|by right; right].
  right. left. exists (scan_suitable (drop (i + 1) bs) (i + 1)), nb.
  pose proof (scan_suitable_ge (drop (i + 1) bs) (i + 1)) as Hge.
  split_and!.
  - lia.
  - done.
  - apply (scan_suitable_lands (drop (i + 1) bs) (i + 1)).
    rewrite lookup_drop.
    by replace (i + 1 + (scan_suitable (drop (i + 1) bs) (i + 1) - (i + 1)))%nat
      with (scan_suitable (drop (i + 1) bs) (i + 1)) by lia.
  - by case_decide.
  - by case_decide.
  - by case_decide.
Qed.

Lemma skip_silence_guarded self cur :
  blocks (block_manager self) !! current_block_index self = Some cur ->
  time_in_block self cur < Float.round 0.1 ->
  skip_silence self = self.
Proof.
  intros Hcur Hearly. rewrite (skip_silence_in_range self cur Hcur).
  apply ltb_lt in Hearly. by rewrite Hearly.
Qed.

(** A block the skip may land on is not itself skipped. *)
Lemma suitable_not_skipped cur : suitable cur = true -> should_skip cur = false.
Proof.
  unfold suitable, should_skip.
  rewrite andb_true_iff, negb_true_iff. intros [Hsil Hlong]. rewrite Hsil.
  cbn [negb andb]. to_order.
  destruct (Py.ltb _ _) eqn:E; [|done]. to_order.
  pose proof thresholds_ordered as Horder. revert Hlong E Horder.
  generalize (Float.sub (end_ cur) (start cur)), (Float.round 0.2), (Float.round 0.3).
  intros d lo hi ? ? ?. lra.
Qed.

Lemma skip_silence_on_suitable self cur :
  blocks (block_manager self) !! current_block_index self = Some cur ->
  suitable cur = true ->
  skip_silence self = self.
Proof.
  intros Hcur Hsuit. rewrite (skip_silence_in_range self cur Hcur).
  rewrite (suitable_not_skipped cur Hsuit). by destruct (Py.ltb _ _).
Qed.

Lemma time_in_block_at_zero self cur :
  position (media_player self) = 0%Z -> 0 <= start cur ->
  time_in_block self cur < Float.round 0.1.
Proof.
  intros Hpos Hstart. unfold time_in_block. rewrite Hpos.
  assert (Hzero : Float.div (inject_Z 0) 1000 = 0) by reflexivity.
  rewrite Hzero. unfold Float.sub.
  assert (Hround : Float.round 0 = 0) by reflexivity. rewrite Hround.
  pose proof (round_nonneg (start cur) Hstart) as Hs.
  pose proof (round_nonpos (0 - Float.round (start cur))) as Hdiff.
  pose proof threshold_positive as Hpos'.
  revert Hs Hdiff Hpos'.
  generalize (Float.round (0 - Float.round (start cur))), (Float.round 0.1).
  intros d t Hs Hdiff Ht.
  assert (d <= 0) by (apply Hdiff; lra). lra.
Qed.

Lemma skip_silence_settles self cur :
  blocks (block_manager self) !! current_block_index self = Some cur ->
  0 <= start cur ->
  skip_silence (skip_silence self) = skip_silence self.
Proof.
  intros Hcur Hstart.
  destruct (skip_silence_cases self cur Hcur)
    as [Hsame | [(j & nb & Hlt & Hj & Hnb & Hidx & Hpos & Hbm) | Hstop]].
  - by rewrite !Hsame.
  - apply (skip_silence_on_suitable _ nb); [|done].
    by rewrite Hbm, Hidx.
  - rewrite Hstop. apply (skip_silence_guarded _ cur); [done|].
    by apply time_in_block_at_zero.
Qed.

(** X12. The auto-skip does not chain.  On blocks that start at 0 or
    later, a second tick of the timer right after a first one, before
    any position update, changes nothing: after a jump the current block
    is one that is not skipped, and after a stop the playhead is at the
    beginning. *)
Theorem skip_silence_idempotent (self : VideoPlayer) :
  Forall (fun b => 0 <= start b) (blocks (block_manager self)) ->
  skip_silence (skip_silence self) = skip_silence self.
Proof.
  intros Hstarts. rewrite Forall_lookup in Hstarts.
  destruct (decide (blocks (block_manager self) = [])) as [Hnil|Hne].
  { unfold skip_silence at 2. rewrite Hnil.
    unfold skip_silence. by rewrite Hnil. }
  destruct (decide (length (blocks (block_manager self))
                    <= current_block_index self)%nat) as [Hout|Hin].
  - rewrite (skip_silence_clamps self Hne Hout).
    set (last_index := (length (blocks (block_manager self)) - 1)%nat).
    destruct (lookup_lt_is_Some_2 (blocks (block_manager self)) last_index)
      as [cur Hcur].
    { unfold last_index. destruct (blocks (block_manager self)); simpl; [done | lia]. }
    apply (skip_silence_settles _ cur); [done|].
    by apply (Hstarts last_index).
  - destruct (lookup_lt_is_Some_2 (blocks (block_manager self))
                (current_block_index self)) as [cur Hcur]; [lia|].
    apply (skip_silence_settles _ cur); [done|].
    by apply (Hstarts (current_block_index self)).
Qed.

Lemma skip_silence_idempotent_witness :
  current_block_index (skip_silence skipping_player) = 4%nat
  /\ skip_silence (skip_silence skipping_player) = skip_silence skipping_player.
Proof.
  split; [reflexivity|].
  apply skip_silence_idempotent.
  vm_compute. repeat constructor; discriminate.
Defined.

(** X13. The auto-skip never moves backwards and never leaves the
    list: with blocks, the current index after a tick names a block,
    and from an index that named a block it is that index or a later
    one; when it is a later one, the new current block is non-silence
    and at least 0.3 s long.  The blocks themselves are not touched. *)
Theorem skip_silence_moves_forward (self : VideoPlayer) :
  blocks (block_manager self) <> [] ->
  let bs := blocks (block_manager self) in
  let i := current_block_index self in
  let i' := current_block_index (skip_silence self) in
  (i' < length bs)%nat
  /\ block_manager (skip_silence self) = block_manager self
  /\ ((i < length bs)%nat ->
      (i <= i')%nat
      /\ ((i < i')%nat -> exists b, bs !! i' = Some b /\ stable b)).
Proof.
  intros Hne bs i i'. subst bs i i'.
  assert (Hin : forall vp cur,
            blocks (block_manager vp) !! current_block_index vp = Some cur ->
            (current_block_index (skip_silence vp) < length (blocks (block_manager vp)))%nat
            /\ (current_block_index vp <= current_block_index (skip_silence vp))%nat
            /\ ((current_block_index vp < current_block_index (skip_silence vp))%nat ->
                exists b, blocks (block_manager vp)
                          !! current_block_index (skip_silence vp) = Some b
                          /\ stable b)).
  { intros vp cur Hcur. pose proof (lookup_lt_Some _ _ _ Hcur) as Hlt.
    destruct (skip_silence_cases vp cur Hcur)
      as [-> | [(j & nb & Hj & Hnb & Hsuit & Hidx & _) | ->]].
    - split_and!; [done | lia | lia].
    - rewrite Hidx. split_and!; [by apply lookup_lt_Some in Hnb | lia |].
      intros _. exists nb. split; [done | by apply suitable_stable].
    - simpl. split_and!; [done | lia | lia]. }
  split_and!.
  - destruct (decide (length (blocks (block_manager self))
                      <= current_block_index self)%nat) as [Hout|Hlt].
    + rewrite (skip_silence_clamps self Hne Hout).
      set (vp := set_current_block_index self _).
      destruct (lookup_lt_is_Some_2 (blocks (block_manager vp))
                  (current_block_index vp)) as [cur Hcur].
      { simpl. destruct (blocks (block_manager self)); simpl; [done | lia]. }
      by destruct (Hin vp cur Hcur).
    + destruct (lookup_lt_is_Some_2 (blocks (block_manager self))
                  (current_block_index self)) as [cur Hcur]; [lia|].
      by destruct (Hin self cur Hcur).
  - apply skip_silence_block_manager.
  - intros Hlt.
    destruct (lookup_lt_is_Some_2 _ _ Hlt) as [cur Hcur].
    destruct (Hin self cur Hcur) as (_ & Hle & Hstable). done.
Qed.

Lemma skip_silence_moves_forward_witness :
  (current_block_index skipping_player
   <= current_block_index (skip_silence skipping_player))%nat
  /\ block_manager (skip_silence skipping_player) = block_manager skipping_player.
Proof.
  assert (Hne : blocks (block_manager skipping_player) <> []) by discriminate.
  destruct (skip_silence_moves_forward skipping_player Hne) as (_ & Hbm & Hfwd).
  split; [|exact Hbm].
  apply Hfwd. simpl. lia.
Defined.

End SkipFacts.

(** ** More on reset and export *)

Section ResetExportFacts.

Import VideoPlayer.

Lemma reset_block_idempotent b :
  BlockManager.reset_block (BlockManager.reset_block b) = BlockManager.reset_block b.
Proof.
  unfold BlockManager.reset_block.
  destruct (is_silence b) eqn:E; simpl; rewrite ?E; done.
Qed.

Lemma reset_block_is_reset b : is_reset (BlockManager.reset_block b).
Proof.
  unfold BlockManager.reset_block, is_reset.
  destruct (is_silence b) eqn:E; simpl; [congruence | done].
Qed.

Lemma reset_blocks_blocks self :
  blocks (block_manager (reset_blocks self))
  = BlockManager.reset_block <$> blocks (block_manager self).
Proof.
  unfold reset_blocks.
  destruct (blocks (block_manager self)) as [|b0 rest] eqn:Hbs; [by rewrite Hbs|].
  cbn [block_manager BlockManager.reset_blocks blocks]. by rewrite Hbs.
Qed.

Lemma reset_blocks_is_reset self :
  Forall is_reset (blocks (block_manager (reset_blocks self))).
Proof.
  rewrite reset_blocks_blocks. apply Forall_fmap, Forall_forall.
  intros b _. apply reset_block_is_reset.
Qed.

(** X14. [reset_blocks] is idempotent, and after it every non-silence
    block is unvisited and included. *)
Theorem reset_blocks_idempotent (self : VideoPlayer) :
  reset_blocks (reset_blocks self) = reset_blocks self
  /\ Forall is_reset (blocks (block_manager (reset_blocks self))).
Proof.
  split; [|apply reset_blocks_is_reset].
  assert (Hbm : forall bm, BlockManager.reset_blocks (BlockManager.reset_blocks bm)
                           = BlockManager.reset_blocks bm).
  { intros bm. unfold BlockManager.reset_blocks. simpl. f_equal.
    rewrite <- list_fmap_compose. apply list_fmap_ext.
    intros i b _. apply reset_block_idempotent. }
  destruct self as [[bs path dur] idx jumped green mp].
  unfold reset_blocks. simpl.
  destruct bs as [|b0 rest]; simpl; [done|].
  f_equal. exact (Hbm {| blocks := b0 :: rest; video_path := path; duration := dur |}).
Qed.

Lemma unvisited_not_included bs :
  Forall unvisited bs -> included_blocks bs = [].
Proof.
  induction 1 as [|b rest Hb Hrest IH]; [done|].
  rewrite included_blocks_cons, IH.
  unfold selected. destruct (is_silence b) eqn:E; [done|].
  by rewrite (Hb E).
Qed.

Lemma export_needs_included self output_path cuts :
  export_green_blocks self output_path = Exported cuts ->
  included_blocks (blocks (block_manager self)) <> [].
Proof.
  unfold export_green_blocks. repeat case_match; discriminate.
Qed.

(** X15. Nothing is exported from a model nobody has played through:
    right after [reset_blocks], and right after [detect_blocks] filled
    the model, [export_green_blocks] cuts no segment, whatever the
    output path. *)
Theorem unvisited_model_exports_nothing (self : VideoPlayer)
    (output_path : string) (cuts : list Segment) :
  export_green_blocks (reset_blocks self) output_path <> Exported cuts
  /\ (freshly_populated self ->
      export_green_blocks self output_path <> Exported cuts).
Proof.
  split.
  - intros Hexp. apply export_needs_included in Hexp. apply Hexp.
    apply unvisited_not_included.
    eapply Forall_impl; [exact (reset_blocks_is_reset self)|].
    intros b Hb Hsil. by destruct (Hb Hsil).
  - intros (output & probe & Hfresh) Hexp.
    apply export_needs_included in Hexp. apply Hexp.
    apply unvisited_not_included.
    eapply Forall_impl; [exact (detect_blocks_as_created _ _ _ Hfresh)|].
    intros b [_ Hvis] _. exact Hvis.
Qed.

Lemma unvisited_model_exports_nothing_witness :
  export_green_blocks fresh_player "out.mp4" = ExportNoBlocksSelected
  /\ export_green_blocks fresh_player "out.mp4"
     <> Exported (export_segments (blocks (block_manager fresh_player))).
Proof.
  split; [reflexivity|].
  apply unvisited_model_exports_nothing.
  exists dangling_output, (Some 10). reflexivity.
Defined.

(** X16. When [export_green_blocks] does run the transcoder, the video
    path is set, an output path was chosen, and the cut list is not
    empty; the cuts are numbered 0, 1, 2, ... in the order they are
    concatenated, each lasts at least 0.1 s, and there are no more cuts
    than blocks. *)
Theorem export_green_blocks_exported (self : VideoPlayer) (output_path : string)
    (cuts : list Segment) :
  export_green_blocks self output_path = Exported cuts ->
  cuts <> []
  /\ cuts = export_segments (blocks (block_manager self))
  /\ Py.truthy (video_path (block_manager self)) = true
  /\ output_path <> EmptyString
  /\ (length cuts <= length (blocks (block_manager self)))%nat
  /\ (forall k seg, cuts !! k = Some seg ->
        seg_index seg = k /\ 0.1 <= seg_duration seg).
Proof.
  unfold export_green_blocks.
  destruct (Py.truthy (video_path (block_manager self))); simpl; [|discriminate].
  case_bool_decide; [discriminate|]. simpl.
  case_bool_decide as Hout; [discriminate|].
  destruct (included_blocks (blocks (block_manager self))) as [|b rest] eqn:Hinc;
    [discriminate|].
  intros [= <-]. unfold export_segments. rewrite Hinc. split_and!; try done.
  - rewrite length_imap, <- Hinc. unfold included_blocks. apply length_filter.
  - intros k seg. rewrite list_lookup_imap.
    destruct ((b :: rest) !! k) as [bk|]; simpl; [|discriminate].
    intros [= <-]. simpl. split; [done|].
    destruct (max_cases 0.1 (end_ bk - start bk)) as [[? ->]|[? ->]]; lra.
Qed.

Lemma export_green_blocks_exported_witness :
  export_green_blocks reviewed_player "out.mp4"
  = Exported [ mkSegment 0 0 2; mkSegment 1 3 0.1 ]
  /\ (length [ mkSegment 0 0 2; mkSegment 1 3 0.1 ]
      <= length (blocks (block_manager reviewed_player)))%nat.
Proof.
  assert (Hexp : export_green_blocks reviewed_player "out.mp4"
                 = Exported [ mkSegment 0 0 2; mkSegment 1 3 0.1 ])
    by (vm_compute; reflexivity).
  split; [exact Hexp|].
  destruct (export_green_blocks_exported _ _ _ Hexp) as (_ & _ & _ & _ & Hlen & _).
  exact Hlen.
Defined.

End ResetExportFacts.

(** ** More on saving, loading and opening *)

Section StoreFacts.

Import BlockManager.

(** X17. [save_state] either returns [False] and leaves the disk as it
    is, which happens exactly when there are no blocks or the path
    cannot be written, or returns [True] after writing the state of a
    non-empty block list to the one file named; no other file
    changes. *)
Theorem save_state_outcomes (self : BlockManager) (filepath : string) (d : disk) :
  ((save_state self filepath d).1 = false
   <-> blocks self = [] \/ filepath ∈ unwritable d)
  /\ ((save_state self filepath d).1 = false -> (save_state self filepath d).2 = d)
  /\ ((save_state self filepath d).1 = true ->
      blocks self <> []
      /\ files (save_state self filepath d).2 !! filepath
         = Some (Json {| s_video_path := Some (video_path self);
                         s_blocks := Some (blocks_to_dicts (blocks self)) |})
      /\ (forall other, other <> filepath ->
            files (save_state self filepath d).2 !! other = files d !! other)
      /\ unwritable (save_state self filepath d).2 = unwritable d).
Proof.
  unfold save_state, write_json.
  destruct (blocks self) as [|b rest] eqn:Hbs; simpl.
  - split_and!; [split; [by left | done] | done | done].
  - case_decide as Hw; simpl.
    + split_and!; [split; [by right | done] | done | done].
    + split_and!.
      * split; [done | by intros [?|?]].
      * done.
      * intros _. split_and!; [done | apply lookup_insert_eq | | done].
        intros other Hne. by apply lookup_insert_ne.
Qed.

Lemma save_state_outcomes_witness :
  (save_state session_manager "/proc/state.json" session_disk).2 = session_disk
  /\ files (save_state session_manager "review.json" session_disk).2
     !! "gapped.json"%string = Some (Json gapped_state).
Proof.
  split.
  - apply (save_state_outcomes session_manager "/proc/state.json" session_disk).
    apply (save_state_outcomes session_manager "/proc/state.json" session_disk).
    right. unfold session_disk. simpl. by apply elem_of_singleton.
  - destruct (save_state_outcomes session_manager "review.json" session_disk)
      as (_ & _ & Hok).
    destruct (Hok eq_refl) as (_ & _ & Hother & _).
    rewrite Hother by discriminate. vm_compute. reflexivity.
Defined.

(** X18. A [load_state] that returns [False] leaves the blocks and the
    duration as they were, and when the file is missing, is not JSON or
    has no [video_path] entry it leaves the whole manager as it was. *)
Theorem load_state_failed (self : BlockManager) (filepath : string) (d : disk) :
  (load_state self filepath d).1 = false ->
  blocks (load_state self filepath d).2 = blocks self
  /\ duration (load_state self filepath d).2 = duration self
  /\ ((forall state, files d !! filepath = Some (Json state) ->
         s_video_path state = None) ->
      (load_state self filepath d).2 = self).
Proof.
  intros Hfalse.
  destruct (load_state self filepath d) as [ok self'] eqn:Hload.
  simpl in *. subst ok.
  destruct (load_state_failure _ _ _ _ Hload) as (Hblocks & Hdur & Hpath).
  split_and!; [done | done |].
  intros Hnokey.
  assert (Hsame : video_path self' = video_path self).
  { destruct Hpath as [?|(state & Hfile & Hkey)]; [done|].
    rewrite (Hnokey state Hfile) in Hkey. discriminate. }
  destruct self, self'. simpl in *. congruence.
Qed.

Lemma load_state_failed_witness :
  (load_state session_manager "notes.txt" session_disk).2 = session_manager
  /\ (load_state session_manager "absent.json" session_disk).2 = session_manager.
Proof.
  split.
  - apply (load_state_failed session_manager "notes.txt" session_disk); [reflexivity|].
    intros state Hfile. vm_compute in Hfile. discriminate Hfile.
  - apply (load_state_failed session_manager "absent.json" session_disk); [reflexivity|].
    intros state Hfile. vm_compute in Hfile. discriminate Hfile.
Defined.

(** X19. Saving again what was loaded changes nothing: after a
    successful [save_state] and a [load_state] of that file, a
    [save_state] of the restored manager to the same path succeeds and
    leaves the disk as it is. *)
Theorem resave_is_stable (self other restored : BlockManager)
    (filepath : string) (d d' : disk) :
  save_state self filepath d = (true, d') ->
  load_state other filepath d' = (true, restored) ->
  save_state restored filepath d' = (true, d').
Proof.
  intros Hsave Hload.
  assert (Hne : blocks self <> [] /\ filepath ∉ unwritable d).
  { unfold save_state, write_json in Hsave.
    destruct (blocks self); [discriminate|].
    case_decide; [discriminate|]. done. }
  destruct Hne as [Hne Hw].
  rewrite (save_state_writes self filepath d Hne Hw) in Hsave.
  injection Hsave as <-.
  rewrite (load_state_complete other filepath _ (video_path self) (blocks self))
    in Hload by apply lookup_insert_eq.
  injection Hload as <-.
  rewrite save_state_writes by done. simpl.
  by rewrite insert_insert_eq.
Qed.

Lemma resave_is_stable_witness :
  exists d' restored,
    save_state session_manager "review.json" session_disk = (true, d')
    /\ load_state init "review.json" d' = (true, restored)
    /\ save_state restored "review.json" d' = (true, d').
Proof.
  eexists _, _. split_and!; [reflexivity | reflexivity |].
  apply (resave_is_stable session_manager init _ "review.json" session_disk);
    reflexivity.
Defined.

(** X20. The Load State handler: a cancelled dialog changes nothing; a
    load that succeeds makes block 0 current, resets the last jump and
    points the player at the new source; a load that fails keeps the
    cursor, the player and the blocks.  The mode is kept in every
    case. *)
Theorem player_load_state_effect (self : VideoPlayer) (filepath : string) (d : disk) :
  let after := VideoPlayer.load_state self filepath d in
  let result := load_state (block_manager self) filepath d in
  green_mode after = green_mode self
  /\ (filepath = EmptyString -> after = self)
  /\ (filepath <> EmptyString -> block_manager after = result.2)
  /\ (filepath <> EmptyString -> result.1 = true ->
      current_block_index after = 0%nat
      /\ last_jumped_block_index after = 0%nat
      /\ media_player after = QMediaPlayer.setSource (media_player self))
  /\ (filepath <> EmptyString -> result.1 = false ->
      current_block_index after = current_block_index self
      /\ last_jumped_block_index after = last_jumped_block_index self
      /\ media_player after = media_player self
      /\ blocks (block_manager after) = blocks (block_manager self)).
Proof.
  intros after result. subst after result. unfold VideoPlayer.load_state.
  case_bool_decide as Hpath.
  - split_and!; try done.
  - destruct (load_state (block_manager self) filepath d) as [ok bm] eqn:Hload.
    destruct ok; simpl.
    + split_and!; try done.
    + split_and!; try done. intros _ _. split_and!; try done.
      by destruct (load_state_failure _ _ _ _ Hload).
Qed.

Lemma player_load_state_effect_witness :
  let after := VideoPlayer.load_state reviewed_player "truncated.json" session_disk in
  current_block_index after = 3%nat
  /\ blocks (block_manager after) = reviewed_blocks
  /\ video_path (block_manager after) = Some "other.mp4"%string.
Proof.
  destruct (player_load_state_effect reviewed_player "truncated.json" session_disk)
    as (_ & _ & _ & _ & Hfail).
  destruct Hfail as (Hidx & _ & _ & Hblocks); [discriminate | reflexivity |].
  split_and!; [exact Hidx | exact Hblocks | reflexivity].
Defined.

(** X21. [open_file] with a chosen path always drops the blocks of the
    video before: the manager then has the new path and either no
    blocks, when the user declined or the detection raised, or the
    blocks [detect_blocks] returned, with block 0 current.  Declining
    keeps the old current index; a cancelled dialog changes nothing. *)
Theorem open_file_effect (self : VideoPlayer) (path : string) (reply_yes : bool)
    (output : list SilenceDetector.line) (probe : option Q) :
  let after := (VideoPlayer.open_file self path reply_yes output probe).1 in
  let raised := (VideoPlayer.open_file self path reply_yes output probe).2 in
  (path = EmptyString -> after = self /\ raised = Py.Ok tt)
  /\ (path <> EmptyString ->
      video_path (block_manager after) = Some path
      /\ green_mode after = green_mode self
      /\ (reply_yes = false ->
          blocks (block_manager after) = []
          /\ current_block_index after = current_block_index self
          /\ raised = Py.Ok tt)
      /\ (reply_yes = true ->
          forall bs, SilenceDetector.detect_blocks output probe = Py.Ok bs ->
            blocks (block_manager after) = bs
            /\ current_block_index after = 0%nat
            /\ raised = Py.Ok tt
            /\ freshly_populated after)
      /\ (reply_yes = true ->
          forall e, SilenceDetector.detect_blocks output probe = Py.Raised e ->
            blocks (block_manager after) = [] /\ raised = Py.Raised e)).
Proof.
  intros after raised. subst after raised. unfold VideoPlayer.open_file.
  destruct path as [|c rest]; [by split|].
  split; [done|]. intros _.
  unfold process_blocks. cbn [block_manager set_video_path video_path Py.truthy negb].
  destruct reply_yes.
  - destruct (SilenceDetector.detect_blocks output probe) as [bs|e] eqn:Hdetect;
      simpl; split_and!; try done.
    + intros _ bs' [= <-]. split_and!; try done.
      exists output, probe. simpl. done.
    + intros _ e' [= <-]. done.
  - simpl. split_and!; try done.
Qed.

Lemma open_file_effect_witness :
  let after := (VideoPlayer.open_file reviewed_player "next.mp4" true
                  dangling_output (Some 10)).1 in
  blocks (block_manager after) = blocks (block_manager fresh_player)
  /\ current_block_index after = 0%nat
  /\ freshly_populated after.
Proof.
  destruct (open_file_effect reviewed_player "next.mp4" true dangling_output (Some 10))
    as [_ Hopen].
  destruct Hopen as (_ & _ & _ & Hyes & _); [discriminate|].
  destruct (Hyes eq_refl _ eq_refl) as (Hblocks & Hidx & _ & Hfresh).
  split_and!; [exact Hblocks | exact Hidx | exact Hfresh].
Defined.

End StoreFacts.

(** ** The timeline widget *)

Section TimelineFacts.

Import Painter.

(** X22. The blocks painted green are exactly the blocks the export
    cuts, and the blocks painted light gray are exactly the silence
    blocks. *)
Theorem green_blocks_are_exported (b : AudioBlock) :
  (block_color b = mkQColor 0 255 0 100 <-> export_selected b)
  /\ (block_color b = mkQColor 200 200 200 100 <-> is_silence b = true).
Proof.
  unfold block_color, export_selected.
  destruct (is_silence b), (visited b), (include b);
    split; split; (discriminate || tauto || (intros (? & ? & ?); discriminate)
                   || intros ?; split_and!; done).
Qed.

Lemma green_blocks_are_exported_witness :
  block_color (mkAudioBlock 0 2 false true true) = mkQColor 0 255 0 100.
Proof.
  apply (green_blocks_are_exported (mkAudioBlock 0 2 false true true)).
  split_and!; reflexivity.
Defined.

Lemma visible_range_bounds (len cur v : Z) :
  (0 <= cur)%Z -> (cur < len)%Z -> (1 <= v)%Z ->
  (0 <= (visible_range len cur v).1)%Z
  /\ ((visible_range len cur v).1 <= cur)%Z
  /\ (cur < (visible_range len cur v).2)%Z
  /\ ((visible_range len cur v).2 <= len)%Z
  /\ ((visible_range len cur v).2 - (visible_range len cur v).1 = Z.min v len)%Z.
Proof.
  intros Hcur Hlen Hv. unfold visible_range.
  assert (Hhalf : (0 <= v / 2 /\ v / 2 < v)%Z).
  { split; [apply Z.div_pos; lia | apply Z.div_lt; lia]. }
  generalize dependent (v / 2)%Z. intros h Hh.
  destruct (Z.ltb_spec (Z.min len (Z.max 0 (cur - h) + v) - Z.max 0 (cur - h)) v);
    simpl; lia.
Qed.

Lemma visible_range_zero (len cur : Z) :
  ((visible_range len cur 0).2 <= (visible_range len cur 0).1)%Z.
Proof.
  unfold visible_range. change (0 / 2)%Z with 0%Z.
  destruct (Z.ltb_spec (Z.min len (Z.max 0 (cur - 0) + 0) - Z.max 0 (cur - 0)) 0);
    simpl; lia.
Qed.

Lemma slice_length (bs : list AudioBlock) (s e : Z) :
  (0 <= s)%Z -> (s <= e)%Z -> (e <= Z.of_nat (length bs))%Z ->
  length (slice bs s e) = Z.to_nat (e - s).
Proof.
  intros Hs Hse He. unfold slice. rewrite length_take, length_drop. lia.
Qed.

Lemma slice_lookup (bs : list AudioBlock) (s e : Z) k :
  (0 <= s)%Z -> (Z.of_nat k < e - s)%Z ->
  slice bs s e !! k = bs !! (Z.to_nat s + k)%nat.
Proof.
  intros Hs Hk. unfold slice.
  rewrite lookup_take_lt by lia. apply lookup_drop.
Qed.

Lemma paintEvent_unfold (self : BlockTimeline) (width : Z) :
  timeline_blocks self <> [] ->
  ~ total_duration self == 0 ->
  paintEvent self width = paint_visible self width (visible_slice self).
Proof.
  intros Hne Hdur. unfold paintEvent, visible_slice, paint_visible.
  destruct (timeline_blocks self) as [|b0 rest] eqn:Hbs; [done|].
  assert (Hzero : Qeq_bool (total_duration self) 0 = false).
  { apply not_true_iff_false. by rewrite Qeq_bool_iff. }
  rewrite Hzero. cbv zeta.
  by destruct (visible_range _ _ _) as [s e].
Qed.

Lemma paint_visible_index_error self width visible :
  paint_visible self width visible = PaintIndexError <-> visible = [].
Proof.
  unfold paint_visible. destruct visible as [|v0 vs]; [done|].
  destruct (last (v0 :: vs)) eqn:Hlast.
  - cbn [head]. cbv zeta. destruct (Qeq_bool (end_ a - start v0) 0);
      split; intros H; discriminate H.
  - apply last_None in Hlast. discriminate.
Qed.

(** X23. With blocks to show, a duration that is not 0 and at least one
    visible block, the slice [paintEvent] takes has
    [min(visible_blocks, len(blocks))] blocks and holds the block at the
    current position, so [visible_blocks[0]] does not raise.  With zero
    visible blocks the slice is empty and [paintEvent] raises
    [IndexError]. *)
Theorem paintEvent_slice (self : BlockTimeline) (width : Z) :
  timeline_blocks self <> [] ->
  ~ total_duration self == 0 ->
  let bs := timeline_blocks self in
  let cur := VideoPlayer.find_block_at bs (timeline_position self) in
  ((1 <= visible_blocks self)%nat ->
   length (visible_slice self) = Nat.min (visible_blocks self) (length bs)
   /\ (exists k, visible_slice self !! k = bs !! cur /\ is_Some (bs !! cur))
   /\ paintEvent self width <> PaintIndexError)
  /\ (visible_blocks self = 0%nat -> paintEvent self width = PaintIndexError).
Proof.
  intros Hne Hdur bs cur.
  assert (Hcur : (cur < length bs)%nat) by by apply find_block_at_in_range.
  rewrite (paintEvent_unfold self width Hne Hdur), paint_visible_index_error.
  unfold visible_slice. fold bs. fold cur.
  split.
  - intros Hv.
    destruct (visible_range_bounds (Z.of_nat (length bs)) (Z.of_nat cur)
                (Z.of_nat (visible_blocks self)))
      as (H0 & Hlo & Hhi & Hend & Hsize); [lia..|].
    set (range := visible_range _ _ _) in *.
    assert (Hlen : length (slice bs range.1 range.2)
                   = Nat.min (visible_blocks self) (length bs)).
    { rewrite slice_length by lia. lia. }
    split_and!.
    + done.
    + exists (cur - Z.to_nat range.1)%nat. split.
      * rewrite slice_lookup by lia. f_equal. lia.
      * by apply lookup_lt_is_Some_2.
    + intros Hnil. rewrite Hnil in Hlen. simpl in Hlen. lia.
  - intros Hv. rewrite Hv.
    pose proof (visible_range_zero (Z.of_nat (length bs)) (Z.of_nat cur)) as Hempty.
    apply length_zero_iff_nil. unfold slice. rewrite length_take.
    change (Z.of_nat 0) with 0%Z. lia.
Qed.

Lemma paintEvent_slice_witness :
  paintEvent review_timeline 300 <> PaintIndexError
  /\ paintEvent (BlockTimeline.setVisibleBlocks review_timeline 0) 300
     = PaintIndexError.
Proof.
  assert (Hne : timeline_blocks review_timeline <> []) by discriminate.
  assert (Hdur : ~ total_duration review_timeline == 0) by discriminate.
  split.
  - destruct (paintEvent_slice review_timeline 300 Hne Hdur) as [Hshown _].
    destruct Hshown as (_ & _ & Hok); [simpl; lia | exact Hok].
  - apply (paintEvent_slice (BlockTimeline.setVisibleBlocks review_timeline 0) 300);
      [exact Hne | exact Hdur | reflexivity].
Defined.

(** X24. Zooming keeps at least one block visible as long as the model
    has blocks: [zoom_in] never goes below 1, and [zoom_out] never goes
    above the number of blocks.  On a model without blocks [zoom_out]
    sets the number of visible blocks to 0.  Neither touches the blocks
    or the position of the widget. *)
Theorem zoom_bounds (self : VideoPlayer) (timeline : BlockTimeline) :
  (1 <= visible_blocks (VideoPlayer.zoom_in timeline))%nat
  /\ (visible_blocks (VideoPlayer.zoom_in timeline) <= Nat.max 1 (visible_blocks timeline))%nat
  /\ (visible_blocks (VideoPlayer.zoom_out self timeline)
      <= length (blocks (block_manager self)))%nat
  /\ (blocks (block_manager self) <> [] ->
      (1 <= visible_blocks (VideoPlayer.zoom_out self timeline))%nat)
  /\ (blocks (block_manager self) = [] ->
      visible_blocks (VideoPlayer.zoom_out self timeline) = 0%nat)
  /\ timeline_blocks (VideoPlayer.zoom_in timeline) = timeline_blocks timeline
  /\ timeline_blocks (VideoPlayer.zoom_out self timeline) = timeline_blocks timeline.
Proof.
  unfold VideoPlayer.zoom_in, VideoPlayer.zoom_out.
  cbn [visible_blocks timeline_blocks BlockTimeline.setVisibleBlocks].
  split_and!; try done; try lia.
  - intros Hne. destruct (blocks (block_manager self)); simpl length; [done | lia].
  - intros ->. done.
Qed.

Lemma zoom_bounds_witness :
  visible_blocks (VideoPlayer.zoom_out reviewed_player BlockTimeline.init) = 5%nat
  /\ (1 <= visible_blocks (VideoPlayer.zoom_out reviewed_player BlockTimeline.init))%nat.
Proof.
  split; [reflexivity|].
  apply (zoom_bounds reviewed_player BlockTimeline.init). discriminate.
Defined.

Lemma int_proper (x y : Q) : x == y -> Py.int x = Py.int y.
Proof.
  intros H. unfold Py.int.
  rewrite (Qleb_comp 0 0 (Qeq_refl 0) x y H).
  by rewrite (Qfloor_comp x y H), (Qceiling_comp x y H).
Qed.

Lemma int_inject (z : Z) : Py.int (inject_Z z) = z.
Proof.
  unfold Py.int.
  destruct (Qle_bool 0 (inject_Z z)); [apply Qfloor_Z | apply Qceiling_Z].
Qed.

Lemma x_of_proper time_start time_range width t t' :
  t == t' -> x_of time_start time_range width t = x_of time_start time_range width t'.
Proof. intros H. unfold x_of. apply int_proper. by rewrite H. Qed.

Lemma x_of_left time_start time_range width :
  x_of time_start time_range width time_start = 0%Z.
Proof.
  unfold x_of. rewrite (int_proper _ (inject_Z 0)); [apply int_inject|].
  unfold Qdiv. ring.
Qed.

Lemma x_of_right time_start time_end width :
  ~ time_end - time_start == 0 ->
  x_of time_start (time_end - time_start) width time_end = width.
Proof.
  intros Hrange. unfold x_of.
  rewrite (int_proper _ (inject_Z width)); [apply int_inject|].
  field. exact Hrange.
Qed.

Lemma tiles_adjacent bs : forall t d i b b',
  tiles t bs d -> bs !! i = Some b -> bs !! S i = Some b' ->
  end_ b == start b'.
Proof.
  induction bs as [|b0 rest IH]; intros t d i b b' Htiles Hi Hi'; [done|].
  destruct Htiles as (_ & _ & Hrest).
  destruct i as [|i]; simpl in Hi, Hi'.
  - inversion Hi; subst b0. destruct rest as [|b1 rest]; [done|].
    inversion Hi'; subst b1. destruct Hrest as (H1 & _). lra.
  - by apply (IH _ _ i b b' Hrest).
Qed.

Lemma slice_lookup_Some (bs : list AudioBlock) (s e : Z) k b :
  slice bs s e !! k = Some b -> bs !! (Z.to_nat s + k)%nat = Some b.
Proof.
  unfold slice. intros H. apply lookup_take_Some in H as [H _].
  by rewrite lookup_drop in H.
Qed.

(** X25. When [paintEvent] paints, there is one rectangle per visible
    block, the first rectangle starts at x = 0 and the last one ends at
    x = width; on a block list that tiles the timeline each rectangle
    starts at the x where the one before it ends, so the rectangles
    cover the widget from side to side without gaps. *)
Theorem painted_rects_tile (self : BlockTimeline) (width : Z)
    (rects : list Rect) (position_x : Z) :
  paintEvent self width = Painted rects position_x ->
  length rects = length (visible_slice self)
  /\ (forall k r, rects !! k = Some r ->
        exists b, visible_slice self !! k = Some b
                  /\ rect_color r = block_color b)
  /\ (exists r, head rects = Some r /\ rect_x r = 0%Z)
  /\ (exists r, last rects = Some r /\ (rect_x r + rect_width r = width)%Z)
  /\ (forall d, tiles 0 (timeline_blocks self) d ->
        forall k r r', rects !! k = Some r -> rects !! S k = Some r' ->
          rect_x r' = (rect_x r + rect_width r)%Z).
Proof.
  intros Hpaint.
  assert (Hne : timeline_blocks self <> []).
  { intros Hnil. unfold paintEvent in Hpaint. by rewrite Hnil in Hpaint. }
  assert (Hdur : ~ total_duration self == 0).
  { intros Hzero. apply Qeq_bool_iff in Hzero. unfold paintEvent in Hpaint.
    destruct (timeline_blocks self); [done|]. by rewrite Hzero in Hpaint. }
  rewrite (paintEvent_unfold self width Hne Hdur) in Hpaint.
  unfold paint_visible in Hpaint.
  destruct (head (visible_slice self)) as [first_block|] eqn:Hhead; [|discriminate].
  destruct (last (visible_slice self)) as [last_block|] eqn:Hlast; [|discriminate].
  cbv zeta in Hpaint.
  destruct (Qeq_bool (end_ last_block - start first_block) 0) eqn:Hrange;
    [discriminate|].
  apply Qeq_bool_neq in Hrange.
  injection Hpaint as <- <-.
  split_and!.
  - by rewrite length_fmap.
  - intros k r. rewrite list_lookup_fmap.
    destruct (visible_slice self !! k) as [b|]; simpl; [|discriminate].
    intros [= <-]. by exists b.
  - destruct (visible_slice self) as [|v0 vs]; [discriminate|].
    simpl in Hhead. injection Hhead as ->.
    eexists. split; [reflexivity|]. simpl. apply x_of_left.
  - rewrite fmap_last, Hlast. eexists. split; [reflexivity|]. simpl.
    rewrite x_of_right by done. lia.
  - intros d Htiles k r r'. rewrite !list_lookup_fmap.
    destruct (visible_slice self !! k) as [b|] eqn:Hk; simpl; [|discriminate].
    destruct (visible_slice self !! S k) as [b'|] eqn:Hk'; simpl; [|discriminate].
    intros [= <-] [= <-]. simpl.
    unfold visible_slice in Hk, Hk'.
    apply slice_lookup_Some in Hk, Hk'.
    rewrite Nat.add_succ_r in Hk'.
    rewrite (x_of_proper _ _ _ (start b') (end_ b)); [lia|].
    symmetry. by apply (tiles_adjacent _ _ _ _ _ _ Htiles Hk Hk').
Qed.

Lemma painted_rects_tile_witness :
  paintEvent review_timeline 300
  = Painted [ mkRect 0 2 (mkQColor 0 255 0 100);
              mkRect 2 105 (mkQColor 200 200 200 100);
              mkRect 107 193 (mkQColor 255 0 0 100) ] 42
  /\ exists r, last [ mkRect 0 2 (mkQColor 0 255 0 100);
                      mkRect 2 105 (mkQColor 200 200 200 100);
                      mkRect 107 193 (mkQColor 255 0 0 100) ] = Some r
               /\ (rect_x r + rect_width r = 300)%Z.
Proof.
  assert (Hpaint : paintEvent review_timeline 300
                   = Painted [ mkRect 0 2 (mkQColor 0 255 0 100);
                               mkRect 2 105 (mkQColor 200 200 200 100);
                               mkRect 107 193 (mkQColor 255 0 0 100) ] 42)
    by (vm_compute; reflexivity).
  split; [exact Hpaint|].
  destruct (painted_rects_tile _ _ _ _ Hpaint) as (_ & _ & _ & Hlast & _).
  exact Hlast.
Defined.

End TimelineFacts.
